(** * scripts/check-function-length.py: a shallow embedding and its properties

    The script walks [src/], looks on every line of every [*.ts] file for a
    function declaration (six regular expressions, first match wins),
    measures the function by brace balance and reports the ones longer than
    [MAX_LINES].

    Python values are modelled as follows.
    - [str]: a list of Unicode code points ([N]);
    - [int]: [Z] (unbounded);
    - an exception that leaves a function: the [Raise] branch of [result];
    - the module-level variable [EXIT_CODE]: threaded explicitly through
      [main];
    - the file system: a record with what [Path('src').exists()],
      [src_dir.rglob('*.ts')] and [open(...).read()] answer. *)

From Stdlib Require Import ZArith Lia List Ascii String.
From stdpp Require Import base tactics option list numbers sorting gmap.

Local Open Scope Z_scope.

(** ** Strings *)

Definition char := N.
Definition str := list char.

Definition py (s : string) : str := map N_of_ascii (list_ascii_of_string s).

Definition LF : char := 10%N.
Definition LBRACE : char := 123%N.
Definition RBRACE : char := 125%N.

(** [s.split(sep)] for a one-character separator: never empty. *)
Fixpoint str_split (sep : char) (s : str) : list str :=
  match s with
  | [] => [[]]
  | c :: s' =>
      if N.eqb c sep then [] :: str_split sep s'
      else match str_split sep s' with
           | l :: ls => (c :: l) :: ls
           | [] => [[c]]
           end
  end.

(** [s.count(c)] for a one-character needle. *)
Fixpoint str_count (c : char) (s : str) : Z :=
  match s with
  | [] => 0
  | x :: s' => (if N.eqb x c then 1 else 0) + str_count c s'
  end.

(** [c in s] for a one-character needle. *)
Definition str_contains (c : char) (s : str) : bool :=
  existsb (N.eqb c) s.

(** [s[a:b]] for [0 <= a <= b]. *)
Definition str_slice (s : str) (a b : nat) : str := take (b - a) (drop a s).

(** ** Exceptions *)

Inductive exn := IndexError | OSError | UnicodeDecodeError.

Inductive result (A : Type) :=
| Ok (a : A)
| Raise (e : exn).
Arguments Ok {A} a.
Arguments Raise {A} e.

Definition bind {A B} (r : result A) (k : A -> result B) : result B :=
  match r with
  | Ok a => k a
  | Raise e => Raise e
  end.

Notation "x <- r ;; k" := (bind r (fun x => k))
  (at level 100, r at next level, right associativity).

(** [len(l)] *)
Definition len {A} (l : list A) : Z := Z.of_nat (length l).

(** [l[i]]: a negative index counts from the end, anything else outside
    the list raises. *)
Definition py_index {A} (l : list A) (i : Z) : result A :=
  let j := if i <? 0 then len l + i else i in
  if (0 <=? j) && (j <? len l) then
    match l !! Z.to_nat j with
    | Some x => Ok x
    | None => Raise IndexError
    end
  else Raise IndexError.

(** ** count_function_lines *)

(** The body of [for i in range(function_start, len(lines))]; [n] is the
    number of iterations the range still holds, [i] the current index. The
    running [brace_count] and the flag [in_function] are the loop's state. *)
Fixpoint count_loop (lines : list str) (function_start : Z) (n : nat)
    (i : Z) (brace_count : Z) (in_function : bool) : result Z :=
  match n with
  | O => Ok (len lines - function_start)
  | S n' =>
      line <- py_index lines i ;;
      let open_braces := str_count LBRACE line in
      let close_braces := str_count RBRACE line in
      let brace_count := brace_count + (open_braces - close_braces) in
      let in_function := if negb in_function then true else in_function in
      if in_function && (brace_count <=? 0) && str_contains RBRACE line
      then Ok (i - function_start + 1)
      else count_loop lines function_start n' (i + 1) brace_count in_function
  end.

Definition count_function_lines (content : str) (start_line : Z) : result Z :=
  let lines := str_split LF content in
  let brace_count := 0 in
  let in_function := false in
  let function_start := start_line - 1 in
  count_loop lines function_start (Z.to_nat (len lines - function_start))
    function_start brace_count in_function.

(** ** Regular expressions: the fragment of [re] the six patterns use *)

(** A character set: [\s], [\w], [[...]] and [[^...]]. *)
Inductive cset :=
| CSpace
| CWord
| COneOf (l : list char)
| CNoneOf (l : list char).

(** Quantifiers only ever apply to a character set ([\s*], [\s+], [\w+],
    [[^)]*]) and [?] only to a group, so the syntax keeps them that way.
    Groups carry their number (the rank of their opening parenthesis). *)
Inductive regex :=
| RBol
| RLit (s : str)
| RSet (c : cset)
| RStar (c : cset)
| RPlus (c : cset)
| ROpt (r : regex)
| RAlt (r1 r2 : regex)
| RSeq (r1 r2 : regex)
| RGroup (n : nat) (r : regex).

Declare Scope regex_scope.
Delimit Scope regex_scope with re.
Bind Scope regex_scope with regex.
Infix "·" := RSeq (at level 60, right associativity) : regex_scope.
Notation "'\s*'" := (RStar CSpace) : regex_scope.
Notation "'\s+'" := (RPlus CSpace) : regex_scope.
Notation "'\w+'" := (RPlus CWord) : regex_scope.
Notation "'lit' s" := (RLit (py s)) (at level 10) : regex_scope.

(** The state of a match in progress: how many characters of the line are
    consumed, what is left, the span of every group closed so far and the
    number of the group closed last. *)
Record mstate := MState {
  ms_pos : nat;
  ms_rest : str;
  ms_groups : gmap nat (nat * nat);
  ms_lastindex : option nat
}.

Definition ms_advance (k : nat) (st : mstate) : mstate :=
  MState (ms_pos st + k) (drop k (ms_rest st)) (ms_groups st) (ms_lastindex st).

Definition ms_close (n : nat) (start : nat) (st : mstate) : mstate :=
  MState (ms_pos st) (ms_rest st) (<[n := (start, ms_pos st)]> (ms_groups st)) (Some n).

Fixpoint str_prefix (p s : str) : bool :=
  match p, s with
  | [], _ => true
  | x :: p', y :: s' => N.eqb x y && str_prefix p' s'
  | _ :: _, [] => false
  end.

Definition ascii_isspace (c : char) : bool :=
  ((9 <=? c) && (c <=? 13) || (28 <=? c) && (c <=? 32))%N.

Definition ascii_isalnum (c : char) : bool :=
  ((48 <=? c) && (c <=? 57) || (65 <=? c) && (c <=? 90) || (97 <=? c) && (c <=? 122))%N.

Definition UNDERSCORE : char := 95%N.

Section Scanner.

(** Python decides [\s] and [\w] on a [str] with the Unicode database:
    [Py_UNICODE_ISSPACE] and [Py_UNICODE_ISALNUM]. Below 128 both are the
    ASCII tables above; what they answer from 128 on is left open. *)
Variable unicode_isspace : char -> bool.
Variable unicode_isalnum : char -> bool.

Definition isspace (c : char) : bool :=
  if (c <? 128)%N then ascii_isspace c else unicode_isspace c.

Definition isalnum (c : char) : bool :=
  if (c <? 128)%N then ascii_isalnum c else unicode_isalnum c.

Definition cset_mem (cs : cset) (c : char) : bool :=
  match cs with
  | CSpace => isspace c
  | CWord => isalnum c || N.eqb c UNDERSCORE
  | COneOf l => existsb (N.eqb c) l
  | CNoneOf l => negb (existsb (N.eqb c) l)
  end.

(** Greedy repetition of a character set: every number of characters that
    can be taken, the largest first. *)
Fixpoint star_lengths (cs : cset) (s : str) : list nat :=
  match s with
  | x :: s' =>
      if cset_mem cs x then (S <$> star_lengths cs s') ++ [O] else [O]
  | [] => [O]
  end.

Definition plus_lengths (cs : cset) (s : str) : list nat :=
  match s with
  | x :: s' => if cset_mem cs x then S <$> star_lengths cs s' else []
  | [] => []
  end.

(** A backtracking matcher: all the ways [r] can match at [st], in the order
    the engine tries them. *)
Fixpoint rmatch (r : regex) (st : mstate) : list mstate :=
  match r with
  | RBol => if Nat.eqb (ms_pos st) 0 then [st] else []
  | RLit s =>
      if str_prefix s (ms_rest st) then [ms_advance (length s) st] else []
  | RSet cs =>
      match ms_rest st with
      | x :: _ => if cset_mem cs x then [ms_advance 1 st] else []
      | [] => []
      end
  | RStar cs => (fun k => ms_advance k st) <$> star_lengths cs (ms_rest st)
  | RPlus cs => (fun k => ms_advance k st) <$> plus_lengths cs (ms_rest st)
  | ROpt r' => rmatch r' st ++ [st]
  | RAlt r1 r2 => rmatch r1 st ++ rmatch r2 st
  | RSeq r1 r2 => st' ← rmatch r1 st; rmatch r2 st'
  | RGroup n r' => ms_close n (ms_pos st) <$> rmatch r' st
  end.

(** The match object [re.search] returns. *)
Record Match := MkMatch {
  m_string : str;
  m_groups : gmap nat (nat * nat);
  m_lastindex : option nat
}.

(** [match.group(n)]: [None] when the group took no part in the match. *)
Definition m_group (m : Match) (n : nat) : option str :=
  '(a, b) ← m_groups m !! n; Some (str_slice (m_string m) a b).

Definition ms_init (pos : nat) (rest : str) : mstate := MState pos rest ∅ None.

(** [re.search]: the first start position, from the left, where the pattern
    matches, and the first way it matches there. *)
Fixpoint search_from (r : regex) (line : str) (pos : nat) (rest : str) : option Match :=
  match head (rmatch r (ms_init pos rest)) with
  | Some st => Some (MkMatch line (ms_groups st) (ms_lastindex st))
  | None =>
      match rest with
      | [] => None
      | _ :: rest' => search_from r line (S pos) rest'
      end
  end.

Definition re_search (pattern : regex) (line : str) : option Match :=
  search_from pattern line 0 line.

(** The patterns of [find_functions], in the order of the source. *)
Definition patterns : list regex := [
  (* ^\s*(export\s+)?(async\s+)?function\s+(\w+) *)
  (RBol · \s* · ROpt (RGroup 1 (lit "export" · \s+)) · ROpt (RGroup 2 (lit "async" · \s+))
     · lit "function" · \s+ · RGroup 3 \w+)%re;
  (* ^\s*(export\s+)?(async\s+)?(\w+)\s*[:=]\s*(async\s+)?function *)
  (RBol · \s* · ROpt (RGroup 1 (lit "export" · \s+)) · ROpt (RGroup 2 (lit "async" · \s+))
     · RGroup 3 \w+ · \s* · RSet (COneOf (py ":=")) · \s*
     · ROpt (RGroup 4 (lit "async" · \s+)) · lit "function")%re;
  (* ^\s*(public|private|protected)\s+(async\s+)?(\w+)\s*\( *)
  (RBol · \s* · RGroup 1 (RAlt (lit "public") (RAlt (lit "private") (lit "protected"))) · \s+
     · ROpt (RGroup 2 (lit "async" · \s+)) · RGroup 3 \w+ · \s* · lit "(")%re;
  (* ^\s*(async\s+)?(\w+)\s*\([^)]*\)\s*[:=]\s*\{ *)
  (RBol · \s* · ROpt (RGroup 1 (lit "async" · \s+)) · RGroup 2 \w+ · \s* · lit "("
     · RStar (CNoneOf (py ")")) · lit ")" · \s* · RSet (COneOf (py ":=")) · \s* · lit "{")%re;
  (* ^\s*(async\s+)?(\w+)\s*\([^)]*\)\s*=>\s*\{ *)
  (RBol · \s* · ROpt (RGroup 1 (lit "async" · \s+)) · RGroup 2 \w+ · \s* · lit "("
     · RStar (CNoneOf (py ")")) · lit ")" · \s* · lit "=>" · \s* · lit "{")%re;
  (* ^\s*(\w+)\s*:\s*(async\s+)?function *)
  (RBol · \s* · RGroup 1 \w+ · \s* · lit ":" · \s*
     · ROpt (RGroup 2 (lit "async" · \s+)) · lit "function")%re
].

(** ** The file system *)

Definition path := str.

Record filesystem := {
  (* Path('src').exists() *)
  fs_exists : bool;
  (* what src_dir.rglob('*.ts') yields, in the order it yields it *)
  fs_rglob : list path;
  (* open(p, 'r', encoding='utf-8') followed by read() *)
  fs_read : path -> result str
}.

(** ** find_functions *)

Definition MAX_LINES : Z := 120.

Definition anonymous : str := py "anonymous".

(** A reported function: [(i, func_name, func_lines)]. The name is what
    [match.group] returned, which Python allows to be [None]. *)
Definition report := (Z * option str * Z)%type.

(** [match.group(match.lastindex) if match.lastindex else 'anonymous']:
    the condition is false for [None] and for [0]. *)
Definition func_name_of (m : Match) : option str :=
  match m_lastindex m with
  | Some n => if Nat.eqb n 0 then Some anonymous else m_group m n
  | None => Some anonymous
  end.

(** [for pattern in patterns: ...], left at the first pattern that matches. *)
Fixpoint pattern_loop (max_lines : Z) (content : str) (i : Z) (line : str)
    (ps : list regex) (functions : list report) : result (list report) :=
  match ps with
  | [] => Ok functions
  | pattern :: ps' =>
      match re_search pattern line with
      | Some m =>
          let func_name := func_name_of m in
          func_lines <- count_function_lines content i ;;
          if max_lines <? func_lines
          then Ok (functions ++ [(i, func_name, func_lines)])
          else Ok functions
      | None => pattern_loop max_lines content i line ps' functions
      end
  end.

(** [for i, line in enumerate(lines, 1): ...] *)
Fixpoint line_loop (max_lines : Z) (content : str) (i : Z) (lines : list str)
    (functions : list report) : result (list report) :=
  match lines with
  | [] => Ok functions
  | line :: lines' =>
      functions <- pattern_loop max_lines content i line patterns functions ;;
      line_loop max_lines content (i + 1) lines' functions
  end.

(** The part of [find_functions] that follows the read. *)
Definition find_in_content (max_lines : Z) (content : str) : result (list report) :=
  let lines := str_split LF content in
  let functions := [] in
  line_loop max_lines content 1 lines functions.

(** [MAX_LINES] is a module-level constant; the threshold is an argument
    here and [main] passes the constant. *)
Definition find_functions (max_lines : Z) (fs : filesystem) (file_path : path)
    : result (list report) :=
  content <- fs_read fs file_path ;;
  find_in_content max_lines content.

(** ** main *)

(** What [main] prints, one constructor per [print] of the source. *)
Inductive printed :=
| PHeader (max_lines : Z)
| PBlank
| PNoSrc
| PError (ts_file : path) (line_num : Z) (func_name : option str) (func_lines max_lines : Z)
| PAllWithin (max_lines : Z)
| PRefactor (max_lines : Z).

(** The two things [main] changes as it runs: standard output and the
    module-level [EXIT_CODE]. *)
Record world := World {
  stdout : list printed;
  EXIT_CODE : Z
}.

Definition print (p : printed) (w : world) : world :=
  World (stdout w ++ [p]) (EXIT_CODE w).

(** How the interpreter stops: [sys.exit(code)], or an exception nobody
    catches, which ends the process with status 1. *)
Inductive outcome :=
| SystemExit (code : Z)
| Uncaught (e : exn).

Definition exit_status (o : outcome) : Z :=
  match o with
  | SystemExit code => code
  | Uncaught _ => 1
  end.

(** [for line_num, func_name, func_lines in functions: ...] *)
Fixpoint report_loop (max_lines : Z) (ts_file : path) (functions : list report)
    (w : world) : world :=
  match functions with
  | [] => w
  | (line_num, func_name, func_lines) :: functions' =>
      let w := print (PError ts_file line_num func_name func_lines max_lines) w in
      let w := World (stdout w) 1 in
      report_loop max_lines ts_file functions' w
  end.

(** [for ts_file in src_dir.rglob('*.ts'): ...] *)
Fixpoint file_loop (max_lines : Z) (fs : filesystem) (files : list path)
    (w : world) : world * result unit :=
  match files with
  | [] => (w, Ok tt)
  | ts_file :: files' =>
      match find_functions max_lines fs ts_file with
      | Raise e => (w, Raise e)
      | Ok functions =>
          file_loop max_lines fs files' (report_loop max_lines ts_file functions w)
      end
  end.

Definition main_with (max_lines : Z) (fs : filesystem) (w : world) : world * outcome :=
  let w := print (PHeader max_lines) w in
  let w := print PBlank w in
  if negb (fs_exists fs) then
    let w := print PNoSrc w in
    (w, SystemExit 1)
  else
    match file_loop max_lines fs (fs_rglob fs) w with
    | (w, Raise e) => (w, Uncaught e)
    | (w, Ok _) =>
        let w :=
          if EXIT_CODE w =? 0 then print (PAllWithin max_lines) w
          else print (PRefactor max_lines) (print PBlank w) in
        (w, SystemExit (EXIT_CODE w))
    end.

Definition main (fs : filesystem) (w : world) : world * outcome :=
  main_with MAX_LINES fs w.

(** The script: the module body sets [EXIT_CODE = 0], then calls [main]. *)
Definition script (fs : filesystem) : world * outcome :=
  main fs (World [] 0).

(** The violations a run reported, in the order it printed them. *)
Definition violation_of (p : printed) : option (path * report) :=
  match p with
  | PError f i name n _ => Some (f, (i, name, n))
  | _ => None
  end.

Definition violations (w : world) : list (path * report) :=
  omap violation_of (stdout w).

(** ** Vocabulary of the specification *)

(** What one line adds to the brace balance. *)
Definition delta (line : str) : Z := str_count LBRACE line - str_count RBRACE line.

(** The lines a measurement looks at: the start line and all that follow. *)
Definition lines_from (content : str) (start_line : Z) : list str :=
  drop (Z.to_nat (start_line - 1)) (str_split LF content).

(** The running balance after line [k] of [ls] (counted from 0), all the
    lines up to and including it added up. *)
Definition balance (ls : list str) (k : nat) : Z :=
  foldr Z.add 0 (delta <$> take (S k) ls).

(** The stop condition at line [k] of [ls]. *)
Definition stops (ls : list str) (k : nat) : Prop :=
  ∃ line, ls !! k = Some line ∧ balance ls k ≤ 0 ∧ RBRACE ∈ line.

(** The first line of [ls] at which a scan that enters with balance [bc]
    stops. *)
Fixpoint find_stop (bc : Z) (ls : list str) : option nat :=
  match ls with
  | [] => None
  | line :: ls' =>
      let bc' := bc + delta line in
      if (bc' <=? 0) && str_contains RBRACE line then Some O
      else S <$> find_stop bc' ls'
  end.

(** The first pattern of [ps], in order, that matches the line, with its
    match. *)
Fixpoint first_match_in (ps : list regex) (line : str) : option (regex * Match) :=
  match ps with
  | [] => None
  | p :: ps' =>
      match re_search p line with
      | Some m => Some (p, m)
      | None => first_match_in ps' line
      end
  end.

Definition first_match (line : str) : option (regex * Match) :=
  first_match_in patterns line.

(** The candidate a line gives rise to, with its measured span. *)
Definition candidate_at (content : str) (i : Z) (line : str) : option report :=
  '(_, m) ← first_match line;
  match count_function_lines content i with
  | Ok n => Some (i, func_name_of m, n)
  | Raise _ => None
  end.

Fixpoint candidates_from (content : str) (i : Z) (lines : list str) : list report :=
  match lines with
  | [] => []
  | line :: lines' =>
      match candidate_at content i line with
      | Some c => c :: candidates_from content (i + 1) lines'
      | None => candidates_from content (i + 1) lines'
      end
  end.

Definition candidates (content : str) : list report :=
  candidates_from content 1 (str_split LF content).

Definition report_line (r : report) : Z := r.1.1.
Definition report_lines (r : report) : Z := r.2.

(** A violation: a span longer than the threshold. *)
Definition exceeds (max_lines : Z) (r : report) : Prop := max_lines < report_lines r.

#[local] Instance exceeds_dec max_lines r : Decision (exceeds max_lines r).
Proof. unfold exceeds. apply _. Defined.

(** The group numbers a pattern has. *)
Fixpoint groups_of (r : regex) : list nat :=
  match r with
  | RGroup n r' => n :: groups_of r'
  | ROpt r' => groups_of r'
  | RAlt r1 r2 | RSeq r1 r2 => groups_of r1 ++ groups_of r2
  | _ => []
  end.

(** Whether every way through the pattern closes a group. *)
Fixpoint closes_group (r : regex) : bool :=
  match r with
  | RGroup _ _ => true
  | RSeq r1 r2 => closes_group r1 || closes_group r2
  | RAlt r1 r2 => closes_group r1 && closes_group r2
  | _ => false
  end.

(** A file the run can read. *)
Definition readable (fs : filesystem) (p : path) : Prop :=
  ∃ content, fs_read fs p = Ok content.

(** ** Vocabulary of the proofs *)

(** The stop condition for a scan that enters [ls] with balance [bc]. *)
Definition stops_with (bc : Z) (ls : list str) (k : nat) : Prop :=
  ∃ line, ls !! k = Some line ∧ bc + balance ls k ≤ 0 ∧ RBRACE ∈ line.

(** What holds of a match in progress: every recorded group is one of the
    allowed numbers [G] and spans characters already consumed, and
    [lastindex] names a recorded group, or nothing is recorded at all. *)
Record ms_wf (G : list nat) (st : mstate) : Prop := {
  wf_groups : ∀ n a b, ms_groups st !! n = Some (a, b) → n ∈ G ∧ (a ≤ b ≤ ms_pos st)%nat;
  wf_last : match ms_lastindex st with
            | Some n => is_Some (ms_groups st !! n)
            | None => ms_groups st = ∅
            end
}.

(** The error lines one file adds to the output. *)
Definition error_lines (max_lines : Z) (ts_file : path) (functions : list report)
    : list printed :=
  (fun r : report => PError ts_file r.1.1 r.1.2 r.2 max_lines) <$> functions.

(** What the loop over the files prints and how it ends, whatever was
    printed before and whatever [EXIT_CODE] was. *)
Fixpoint file_prints (max_lines : Z) (fs : filesystem) (files : list path)
    : list printed * result unit :=
  match files with
  | [] => ([], Ok tt)
  | ts_file :: files' =>
      match find_functions max_lines fs ts_file with
      | Raise e => ([], Raise e)
      | Ok functions =>
          let rest := file_prints max_lines fs files' in
          (error_lines max_lines ts_file functions ++ rest.1, rest.2)
      end
  end.

Definition raised_code (out : list printed) (code : Z) : Z :=
  match out with [] => code | _ :: _ => 1 end.

(** ** Vocabulary of the further properties *)

(** The lines a scan visits when the start line is zero or negative: the
    index [start_line - 1] is negative, so the scan first reads from the
    end of the file and then runs over the whole file. *)
Definition wrapped_lines (content : str) (start_line : Z) : list str :=
  drop (Z.to_nat (len (str_split LF content) + (start_line - 1))) (str_split LF content)
    ++ str_split LF content.

(** Whether every match of the pattern takes in a word character. *)
Fixpoint needs_word (r : regex) : bool :=
  match r with
  | RLit s => existsb (cset_mem CWord) s
  | RSet CWord | RPlus CWord => true
  | RSeq r1 r2 => needs_word r1 || needs_word r2
  | RAlt r1 r2 => needs_word r1 && needs_word r2
  | RGroup _ r' => needs_word r'
  | _ => false
  end.

(** Whether every match of the pattern takes at least one character. *)
Fixpoint consumes (r : regex) : bool :=
  match r with
  | RLit (_ :: _) | RSet _ | RPlus _ => true
  | RSeq r1 r2 => consumes r1 || consumes r2
  | RAlt r1 r2 => consumes r1 && consumes r2
  | RGroup _ r' => consumes r'
  | _ => false
  end.

(** Whether every group of the pattern takes at least one character. *)
Fixpoint groups_consume (r : regex) : bool :=
  match r with
  | RGroup _ r' => consumes r' && groups_consume r'
  | ROpt r' => groups_consume r'
  | RAlt r1 r2 | RSeq r1 r2 => groups_consume r1 && groups_consume r2
  | _ => true
  end.

(** Whether the pattern starts with [^]. *)
Definition anchored (r : regex) : bool :=
  match r with
  | RSeq RBol _ => true
  | _ => false
  end.

(** The match object of an end state of the matcher. *)
Definition match_of (line : str) (st : mstate) : Match :=
  MkMatch line (ms_groups st) (ms_lastindex st).

(** What one file contributes to the violations of a run. *)
Definition file_reports (max_lines : Z) (fs : filesystem) (ts_file : path)
    : list (path * report) :=
  match find_functions max_lines fs ts_file with
  | Ok functions => pair ts_file <$> functions
  | Raise _ => []
  end.

(** Whether a match of the pattern that takes characters starts with a
    word character. *)
Fixpoint word_first (r : regex) : bool :=
  match r with
  | RBol | RLit [] => true
  | RLit (c :: _) => cset_mem CWord c
  | RSet CWord | RStar CWord | RPlus CWord => true
  | ROpt r' | RGroup _ r' => word_first r'
  | RAlt r1 r2 => word_first r1 && word_first r2
  | RSeq r1 r2 => word_first r1 && (consumes r1 || word_first r2)
  | _ => false
  end.

(** The shape of the six patterns: [^\s*], then something that takes at
    least one character and starts with a word character. *)
Definition after_blanks (p : regex) : bool :=
  match p with
  | RSeq RBol (RSeq (RStar CSpace) r) => word_first r && consumes r
  | _ => false
  end.

(** ** Sample inputs *)

(** Tables for a run over ASCII text: nothing from 128 on is a space or a
    letter. *)
Definition ascii_only : char → bool := fun _ => false.

Definition sample_content : str := py "function f() {
  a();
}
x".

Definition open_content : str := py "function g() {
  a();".

Definition sample_path : path := py "src/a.ts".

Definition sample_fs : filesystem :=
  {| fs_exists := true;
     fs_rglob := [sample_path];
     fs_read := fun _ => Ok sample_content |}.

(** A directory with one file that is not valid UTF-8. *)
Definition undecodable_fs : filesystem :=
  {| fs_exists := true;
     fs_rglob := [sample_path];
     fs_read := fun _ => Raise UnicodeDecodeError |}.

(** [n] lines of a function body. *)
Definition body_lines (n : nat) : str := concat (replicate n (py "  x();
")).

(** A file whose function opens on line 10 and closes on line 140. *)
Definition long_content : str :=
  concat (replicate 9 [LF]) ++ py "function long() {
" ++ body_lines 129 ++ py "}".

Definition long_fs : filesystem :=
  {| fs_exists := true;
     fs_rglob := [sample_path];
     fs_read := fun _ => Ok long_content |}.

(** A file of one line, with its braces balanced on it. *)
Definition one_line_content : str := py "f() { }".

(** A file without a word character. *)
Definition braces_content : str := py "}

);".

Definition braces_fs : filesystem :=
  {| fs_exists := true;
     fs_rglob := [sample_path];
     fs_read := fun _ => Ok braces_content |}.

Definition long_path : path := py "src/b.ts".

(** A directory with a short file and a long one, walked in either order. *)
Definition two_files_read (p : path) : result str :=
  if decide (p = long_path) then Ok long_content else Ok sample_content.

Definition two_files_fs : filesystem :=
  {| fs_exists := true;
     fs_rglob := [sample_path; long_path];
     fs_read := two_files_read |}.

Definition two_files_fs' : filesystem :=
  {| fs_exists := true;
     fs_rglob := [long_path; sample_path];
     fs_read := two_files_read |}.

(** ** Strings and indexing *)

Lemma str_split_nonempty sep s : str_split sep s ≠ [].
Proof.
  destruct s as [|c s]; simpl; [done|].
  destruct (N.eqb c sep); [done|]. by destruct (str_split sep s).
Qed.

Lemma str_contains_elem_of c s : str_contains c s = true ↔ c ∈ s.
Proof.
  unfold str_contains. rewrite existsb_exists. split.
  - intros (x & Hx & Heq). apply N.eqb_eq in Heq. subst. by apply list_elem_of_In.
  - intros H. exists c. split; [by apply list_elem_of_In | apply N.eqb_refl].
Qed.

Lemma str_count_nonneg c s : 0 ≤ str_count c s.
Proof. induction s as [|x s IH]; simpl; [lia|]. destruct (N.eqb x c); lia. Qed.

Lemma str_count_absent c s : c ∉ s → str_count c s = 0.
Proof.
  induction s as [|x s IH]; simpl; [done|].
  intros H. apply not_elem_of_cons in H as [Hne Hs].
  destruct (N.eqb_spec x c); [congruence|]. rewrite IH; [lia | done].
Qed.

Lemma py_index_lookup {A} (l : list A) (i : nat) x :
  l !! i = Some x → py_index l (Z.of_nat i) = Ok x.
Proof.
  intros H. pose proof (lookup_lt_Some _ _ _ H) as Hlt.
  unfold py_index, len.
  destruct (Z.ltb_spec (Z.of_nat i) 0); [lia|].
  destruct (Z.leb_spec 0 (Z.of_nat i)); [|lia].
  destruct (Z.ltb_spec (Z.of_nat i) (Z.of_nat (length l))); [|lia].
  simpl. by rewrite Nat2Z.id, H.
Qed.

(** ** The measuring loop *)

Lemma in_function_set (b : bool) : (if negb b then true else b) = true.
Proof. by destruct b. Qed.

(** From index [i] on, the loop does what [find_stop] says on the lines
    that are left. *)
Lemma count_loop_find_stop (lines : list str) (function_start : Z) (ls : list str) :
  ∀ (i : nat) (bc : Z) (inf : bool),
    drop i lines = ls →
    count_loop lines function_start (length ls) (Z.of_nat i) bc inf =
      Ok (match find_stop bc ls with
          | Some k => Z.of_nat i + Z.of_nat k - function_start + 1
          | None => len lines - function_start
          end).
Proof.
  induction ls as [|line ls IH]; intros i bc inf Hdrop; [done|].
  assert (lines !! i = Some line) as Hi.
  { rewrite <- (Nat.add_0_r i), <- lookup_drop, Hdrop. done. }
  cbn [length count_loop find_stop].
  rewrite (py_index_lookup _ _ _ Hi). cbn [bind].
  rewrite in_function_set. fold (delta line). cbn [andb].
  destruct ((bc + delta line <=? 0) && str_contains RBRACE line) eqn:Hstop.
  - f_equal. lia.
  - replace (Z.of_nat i + 1) with (Z.of_nat (S i)) by lia.
    rewrite IH.
    + destruct (find_stop (bc + delta line) ls); simpl; f_equal; lia.
    + rewrite (drop_S _ _ _ Hi) in Hdrop. by inversion Hdrop.
Qed.

(** The balance a scan entering with [bc] has after line [k]. *)
Lemma balance_cons line ls k :
  balance (line :: ls) (S k) = delta line + balance ls k.
Proof. unfold balance. by rewrite !firstn_cons, fmap_cons. Qed.

Lemma balance_0 line ls : balance (line :: ls) 0 = delta line.
Proof. unfold balance. simpl. lia. Qed.

Lemma stops_with_0 ls k : stops_with 0 ls k ↔ stops ls k.
Proof. unfold stops_with, stops. by setoid_rewrite Z.add_0_l. Qed.

Lemma stops_with_S bc line ls k :
  stops_with bc (line :: ls) (S k) ↔ stops_with (bc + delta line) ls k.
Proof.
  unfold stops_with. simpl. setoid_rewrite balance_cons.
  split; intros (l & ? & ? & ?); exists l; repeat split; auto; lia.
Qed.

Lemma stop_test_true bc line ls :
  (bc + delta line <=? 0) && str_contains RBRACE line = true ↔
  stops_with bc (line :: ls) 0.
Proof.
  unfold stops_with. rewrite andb_true_iff, Z.leb_le, str_contains_elem_of.
  simpl. rewrite balance_0. split.
  - intros [? ?]. eauto.
  - intros (l & [= <-] & ? & ?). done.
Qed.

Lemma fmap_S_Some (o : option nat) k : S <$> o = Some (S k) ↔ o = Some k.
Proof. destruct o; simpl; split; intros H; inversion H; congruence. Qed.

Lemma fmap_S_None (o : option nat) : S <$> o = None ↔ o = None.
Proof. destruct o; simpl; split; intros H; inversion H; congruence. Qed.

(** [find_stop] finds the first line at which the scan stops... *)
Lemma find_stop_Some bc ls k :
  find_stop bc ls = Some k ↔
  stops_with bc ls k ∧ ∀ k', (k' < k)%nat → ¬ stops_with bc ls k'.
Proof.
  revert bc k. induction ls as [|line ls IH]; intros bc k; simpl.
  - split; [done|]. intros [(l & Hl & _) _]. by rewrite lookup_nil in Hl.
  - destruct ((bc + delta line <=? 0) && str_contains RBRACE line) eqn:Hstop.
    + apply (stop_test_true bc line ls) in Hstop. split.
      * intros [= <-]. split; [done|]. intros k' Hk'. lia.
      * intros [_ Hmin]. destruct k as [|k]; [done|].
        exfalso. apply (Hmin 0%nat); [lia | done].
    + assert (¬ stops_with bc (line :: ls) 0) as Hno.
      { rewrite <- stop_test_true. by rewrite Hstop. }
      destruct k as [|k].
      * split; [|by intros [? _]].
        destruct (find_stop (bc + delta line) ls); simpl; done.
      * rewrite fmap_S_Some, IH, stops_with_S. split.
        -- intros [Hk Hmin]. split; [done|]. intros [|k'] Hk'; [done|].
           rewrite stops_with_S. apply Hmin. lia.
        -- intros [Hk Hmin]. split; [done|]. intros k' Hk'.
           rewrite <- stops_with_S. apply Hmin. lia.
Qed.

(** ... and none when there is none. *)
Lemma find_stop_None bc ls :
  find_stop bc ls = None ↔ ∀ k, ¬ stops_with bc ls k.
Proof.
  revert bc. induction ls as [|line ls IH]; intros bc; simpl.
  - split; [|done]. intros _ k (l & Hl & _). by rewrite lookup_nil in Hl.
  - destruct ((bc + delta line <=? 0) && str_contains RBRACE line) eqn:Hstop.
    + apply (stop_test_true bc line ls) in Hstop. split; [done|].
      intros H. by destruct (H 0%nat).
    + assert (¬ stops_with bc (line :: ls) 0) as Hno.
      { rewrite <- stop_test_true. by rewrite Hstop. }
      rewrite fmap_S_None, IH. split.
      * intros H [|k]; [done|]. rewrite stops_with_S. apply H.
      * intros H k. rewrite <- stops_with_S. apply H.
Qed.

Lemma find_stop_lt bc ls k : find_stop bc ls = Some k → (k < length ls)%nat.
Proof.
  intros [(l & Hl & _) _]%find_stop_Some. by apply lookup_lt_Some in Hl.
Qed.

Lemma lines_from_length content start_line :
  1 ≤ start_line ≤ len (str_split LF content) + 1 →
  len (lines_from content start_line) = len (str_split LF content) - start_line + 1.
Proof. intros H. unfold lines_from, len in *. rewrite length_drop. lia. Qed.

(** [count_function_lines] in closed form, for a start line of the file (or
    the line just past its end, where the range of the loop is empty). *)
Lemma count_function_lines_find_stop content start_line :
  1 ≤ start_line ≤ len (str_split LF content) + 1 →
  count_function_lines content start_line =
    Ok (match find_stop 0 (lines_from content start_line) with
        | Some k => Z.of_nat k + 1
        | None => len (lines_from content start_line)
        end).
Proof.
  intros H. pose proof (lines_from_length content start_line H) as Hlen.
  unfold count_function_lines. cbv zeta.
  replace (Z.to_nat (len (str_split LF content) - (start_line - 1)))
    with (length (lines_from content start_line)) by (unfold len in *; lia).
  replace (start_line - 1) with (Z.of_nat (Z.to_nat (start_line - 1))) at 2 by lia.
  rewrite (count_loop_find_stop _ _ (lines_from content start_line)); [|done].
  destruct (find_stop 0 (lines_from content start_line)); f_equal; lia.
Qed.

Lemma lines_from_succ content start_line line ls :
  1 ≤ start_line →
  lines_from content start_line = line :: ls →
  lines_from content (start_line + 1) = ls.
Proof.
  unfold lines_from. intros H Heq.
  replace (Z.to_nat (start_line + 1 - 1)) with (S (Z.to_nat (start_line - 1))) by lia.
  change (S (Z.to_nat (start_line - 1))) with (1 + Z.to_nat (start_line - 1))%nat.
  rewrite Nat.add_comm, <- drop_drop, Heq. done.
Qed.

(** In range the measure is a number between 1 and the lines that are left. *)
Lemma count_function_lines_bounds content start_line :
  1 ≤ start_line ≤ len (str_split LF content) →
  ∃ n, count_function_lines content start_line = Ok n ∧
       1 ≤ n ≤ len (str_split LF content) - start_line + 1.
Proof.
  intros Hrange. rewrite count_function_lines_find_stop by lia.
  eexists. split; [done|].
  rewrite <- lines_from_length by lia.
  destruct (find_stop 0 (lines_from content start_line)) as [k|] eqn:Hk.
  - apply find_stop_lt in Hk. unfold len. lia.
  - rewrite lines_from_length; lia.
Qed.

(** ** The matcher *)

Lemma ms_wf_init G pos rest : ms_wf G (ms_init pos rest).
Proof. split; simpl; [|done]. intros n a b H. by rewrite lookup_empty in H. Qed.

Lemma ms_wf_advance G k st : ms_wf G st → ms_wf G (ms_advance k st).
Proof.
  intros [Hg Hl]. split; simpl; [|done].
  intros n a b H. destruct (Hg n a b H). split; [done | lia].
Qed.

Lemma ms_wf_close G n start st :
  n ∈ G → (start ≤ ms_pos st)%nat → ms_wf G st → ms_wf G (ms_close n start st).
Proof.
  intros Hn Hle [Hg Hl]. split; simpl.
  - intros n' a b. rewrite lookup_insert. case_decide.
    + intros [= <- <-]. subst. split; [done | lia].
    + apply Hg.
  - rewrite lookup_insert_eq. eauto.
Qed.

(** The matcher only moves forward, and what it has consumed plus what is
    left is the same all along. *)
Lemma rmatch_pos r : ∀ st st',
  st' ∈ rmatch r st →
  (ms_pos st ≤ ms_pos st')%nat ∧
  (ms_pos st' + length (ms_rest st') = ms_pos st + length (ms_rest st))%nat.
Proof.
  assert (∀ cs s k, k ∈ star_lengths cs s → (k ≤ length s)%nat) as Hstar.
  { intros cs s. induction s as [|x s IH]; intros k; simpl.
    - intros ->%list_elem_of_singleton. lia.
    - destruct (cset_mem cs x).
      + rewrite elem_of_app, list_elem_of_fmap, list_elem_of_singleton.
        intros [(k' & -> & Hk') | ->]; [apply IH in Hk'|]; lia.
      + intros ->%list_elem_of_singleton. lia. }
  assert (∀ k st, (k ≤ length (ms_rest st))%nat →
    (ms_pos st ≤ ms_pos (ms_advance k st))%nat ∧
    (ms_pos (ms_advance k st) + length (ms_rest (ms_advance k st))
       = ms_pos st + length (ms_rest st))%nat) as Hadv.
  { intros k st Hk. simpl. rewrite length_drop. lia. }
  induction r as [|s|cs|cs|cs|r IH|r1 IH1 r2 IH2|r1 IH1 r2 IH2|n r IH];
    intros st st'; simpl.
  - destruct (Nat.eqb (ms_pos st) 0); [|by intros ?%elem_of_nil].
    intros ->%list_elem_of_singleton. lia.
  - destruct (str_prefix s (ms_rest st)) eqn:Hp; [|by intros ?%elem_of_nil].
    intros ->%list_elem_of_singleton. apply Hadv.
    clear -Hp. revert Hp. generalize (ms_rest st) as t.
    induction s as [|x s IH]; intros [|y t]; simpl; try done; try lia.
    intros [_ H]%andb_true_iff. apply IH in H. lia.
  - destruct (ms_rest st) as [|x t] eqn:Hrest; [by intros ?%elem_of_nil|].
    destruct (cset_mem cs x); [|by intros ?%elem_of_nil].
    intros ->%list_elem_of_singleton. rewrite <- Hrest. apply Hadv.
    rewrite Hrest. simpl. lia.
  - intros (k & -> & Hk)%list_elem_of_fmap. apply Hadv. by apply Hstar in Hk.
  - intros (k & -> & Hk)%list_elem_of_fmap. apply Hadv.
    unfold plus_lengths in Hk. destruct (ms_rest st) as [|x t]; [by apply elem_of_nil in Hk|].
    destruct (cset_mem cs x); [|by apply elem_of_nil in Hk].
    apply list_elem_of_fmap in Hk as (k' & -> & Hk'). apply Hstar in Hk'. simpl. lia.
  - rewrite elem_of_app, list_elem_of_singleton. intros [H | ->]; [by apply IH | lia].
  - rewrite elem_of_app. intros [H | H]; [by apply IH1 | by apply IH2].
  - intros (st1 & H2 & H1)%list_elem_of_bind.
    apply IH1 in H1. apply IH2 in H2. lia.
  - intros (st1 & -> & H)%list_elem_of_fmap. apply IH in H. simpl. lia.
Qed.

Lemma rmatch_wf G r : ∀ st st',
  (∀ n, n ∈ groups_of r → n ∈ G) →
  st' ∈ rmatch r st → ms_wf G st → ms_wf G st'.
Proof.
  induction r as [|s|cs|cs|cs|r IH|r1 IH1 r2 IH2|r1 IH1 r2 IH2|n r IH];
    intros st st' HG; simpl.
  - destruct (Nat.eqb (ms_pos st) 0); [|by intros ?%elem_of_nil].
    by intros ->%list_elem_of_singleton.
  - destruct (str_prefix s (ms_rest st)); [|by intros ?%elem_of_nil].
    intros ->%list_elem_of_singleton. apply ms_wf_advance.
  - destruct (ms_rest st) as [|x t]; [by intros ?%elem_of_nil|].
    destruct (cset_mem cs x); [|by intros ?%elem_of_nil].
    intros ->%list_elem_of_singleton. apply ms_wf_advance.
  - intros (k & -> & _)%list_elem_of_fmap. apply ms_wf_advance.
  - intros (k & -> & _)%list_elem_of_fmap. apply ms_wf_advance.
  - rewrite elem_of_app, list_elem_of_singleton. intros [H | ->]; [|done].
    by apply IH.
  - simpl in HG. setoid_rewrite elem_of_app in HG.
    rewrite elem_of_app. intros [H | H]; [apply IH1 | apply IH2]; auto.
  - simpl in HG. setoid_rewrite elem_of_app in HG.
    intros (st1 & H2 & H1)%list_elem_of_bind Hwf.
    apply (IH2 st1); auto. apply (IH1 st); auto.
  - simpl in HG. setoid_rewrite elem_of_cons in HG.
    intros (st1 & -> & H)%list_elem_of_fmap Hwf.
    apply ms_wf_close; [auto | by apply rmatch_pos in H as [? _] |].
    apply (IH st); auto.
Qed.

(** Once a group is closed [lastindex] stays set, and a pattern that closes
    a group on every path sets it. *)
Lemma rmatch_lastindex r : ∀ st st',
  st' ∈ rmatch r st →
  closes_group r = true ∨ is_Some (ms_lastindex st) →
  is_Some (ms_lastindex st').
Proof.
  induction r as [|s|cs|cs|cs|r IH|r1 IH1 r2 IH2|r1 IH1 r2 IH2|n r IH];
    intros st st'; simpl.
  - destruct (Nat.eqb (ms_pos st) 0); [|by intros ?%elem_of_nil].
    intros ->%list_elem_of_singleton [?|?]; done.
  - destruct (str_prefix s (ms_rest st)); [|by intros ?%elem_of_nil].
    intros ->%list_elem_of_singleton [?|?]; done.
  - destruct (ms_rest st) as [|x t]; [by intros ?%elem_of_nil|].
    destruct (cset_mem cs x); [|by intros ?%elem_of_nil].
    intros ->%list_elem_of_singleton [?|?]; done.
  - intros (k & -> & _)%list_elem_of_fmap [?|?]; done.
  - intros (k & -> & _)%list_elem_of_fmap [?|?]; done.
  - rewrite elem_of_app, list_elem_of_singleton.
    intros [H | ->] [?|?]; try done. apply (IH st); auto.
  - rewrite elem_of_app, andb_true_iff.
    intros [H | H] [[? ?]|?]; [apply (IH1 st) | apply (IH1 st)
                              | apply (IH2 st) | apply (IH2 st)]; auto.
  - rewrite orb_true_iff.
    intros (st1 & H2 & H1)%list_elem_of_bind [[?|?]|?];
      apply (IH2 st1); auto; right; apply (IH1 st); auto.
  - intros (st1 & -> & H)%list_elem_of_fmap _. simpl. eauto.
Qed.

(** What [re.search] hands back is the end state of a run of the matcher
    from a fresh state at some position of the line. *)
Lemma search_from_inv r line : ∀ rest pos m,
  search_from r line pos rest = Some m →
  ∃ pos' rest' st,
    (pos' + length rest' = pos + length rest)%nat ∧
    st ∈ rmatch r (ms_init pos' rest') ∧
    m = MkMatch line (ms_groups st) (ms_lastindex st).
Proof.
  induction rest as [|x rest IH]; intros pos m; simpl.
  - destruct (head (rmatch r (ms_init pos []))) as [st|] eqn:Hh; [|done].
    intros [= <-]. exists pos, [], st. split; [done|]. split; [|done].
    by apply head_Some_elem_of.
  - destruct (head (rmatch r (ms_init pos (x :: rest)))) as [st|] eqn:Hh.
    + intros [= <-]. exists pos, (x :: rest), st. split; [done|]. split; [|done].
      by apply head_Some_elem_of.
    + intros H. apply IH in H as (pos' & rest' & st & Hlen & Hin & ->).
      exists pos', rest', st. split; [simpl; lia | done].
Qed.

(** A successful search of a pattern that closes a group on every path:
    [lastindex] is the number of one of the pattern's groups and that group
    holds a span of the line. *)
Lemma re_search_lastindex r line m :
  closes_group r = true →
  re_search r line = Some m →
  ∃ n a b,
    m_lastindex m = Some n ∧ n ∈ groups_of r ∧
    m_groups m !! n = Some (a, b) ∧ (a ≤ b ≤ length line)%nat ∧
    m_string m = line.
Proof.
  intros Hc (pos & rest & st & Hlen & Hin & ->)%search_from_inv. simpl in *.
  pose proof (rmatch_lastindex _ _ _ Hin (or_introl Hc)) as [n Hn].
  pose proof (rmatch_wf (groups_of r) _ _ _ (fun _ H => H) Hin (ms_wf_init _ _ _)) as [Hg Hl].
  pose proof (rmatch_pos _ _ _ Hin) as [_ Hpos]. simpl in Hpos.
  rewrite Hn in Hl. destruct Hl as [[a b] Hab].
  destruct (Hg n a b Hab) as [HnG Hle].
  exists n, a, b. repeat split; auto; lia.
Qed.

Lemma re_search_groups r line m :
  re_search r line = Some m →
  m_string m = line ∧
  match m_lastindex m with
  | Some n => n ∈ groups_of r ∧
      ∃ a b, m_groups m !! n = Some (a, b) ∧ (a ≤ b ≤ length line)%nat
  | None => m_groups m = ∅
  end.
Proof.
  intros (pos & rest & st & Hlen & Hin & ->)%search_from_inv. simpl in *.
  split; [done|].
  pose proof (rmatch_wf (groups_of r) _ _ _ (fun _ H => H) Hin (ms_wf_init _ _ _)) as [Hg Hl].
  pose proof (rmatch_pos _ _ _ Hin) as [_ Hpos]. simpl in Hpos.
  destruct (ms_lastindex st) as [n|]; [|done].
  destruct Hl as [[a b] Hab]. destruct (Hg n a b Hab) as [HnG Hle].
  split; [done|]. exists a, b. split; [done | lia].
Qed.

(** ** The loops of find_functions *)

Lemma first_match_in_Some ps line p m :
  first_match_in ps line = Some (p, m) ↔
  ∃ ps1 ps2, ps = ps1 ++ p :: ps2 ∧
    Forall (fun q => re_search q line = None) ps1 ∧ re_search p line = Some m.
Proof.
  induction ps as [|q ps IH]; simpl.
  - split; [done|]. intros (ps1 & ps2 & H & _). by destruct ps1.
  - destruct (re_search q line) as [m'|] eqn:Hq.
    + split.
      * intros [= <- <-]. exists [], ps. by repeat split.
      * intros (ps1 & ps2 & Heq & Hall & Hp). destruct ps1 as [|q' ps1].
        -- injection Heq as -> ->. rewrite Hq in Hp. by injection Hp as ->.
        -- injection Heq as -> ->. apply Forall_cons in Hall as [Hn _]. congruence.
    + rewrite IH. split.
      * intros (ps1 & ps2 & -> & Hall & Hp). exists (q :: ps1), ps2.
        repeat split; [|done]. by constructor.
      * intros (ps1 & ps2 & Heq & Hall & Hp). destruct ps1 as [|q' ps1].
        -- injection Heq as -> ->. congruence.
        -- injection Heq as -> ->. apply Forall_cons in Hall as [_ ?]. eauto.
Qed.

Lemma first_match_in_None ps line :
  first_match_in ps line = None ↔ Forall (fun q => re_search q line = None) ps.
Proof.
  induction ps as [|q ps IH]; simpl; [by split|].
  rewrite Forall_cons. destruct (re_search q line); [|by rewrite IH; tauto].
  split; [done | by intros [? _]].
Qed.

(** The inner loop adds the line's candidate when it exceeds the threshold
    and nothing otherwise. *)
Lemma pattern_loop_first_match max_lines content i line functions : ∀ ps,
  pattern_loop max_lines content i line ps functions =
    match first_match_in ps line with
    | Some (_, m) =>
        func_lines <- count_function_lines content i ;;
        if max_lines <? func_lines
        then Ok (functions ++ [(i, func_name_of m, func_lines)])
        else Ok functions
    | None => Ok functions
    end.
Proof.
  induction ps as [|p ps IH]; simpl; [done|].
  by destruct (re_search p line).
Qed.

Lemma pattern_loop_candidate max_lines content i line functions :
  1 ≤ i ≤ len (str_split LF content) →
  pattern_loop max_lines content i line patterns functions =
    Ok (functions ++ filter (exceeds max_lines) (option_list (candidate_at content i line))).
Proof.
  intros Hi. rewrite pattern_loop_first_match. unfold candidate_at.
  fold (first_match line). destruct (first_match line) as [[p m]|].
  - rewrite count_function_lines_find_stop by lia.
    set (n := match find_stop 0 _ with Some k => _ | None => _ end).
    cbn [bind mbind option_bind].
    change (option_list (Some (i, func_name_of m, n))) with [(i, func_name_of m, n)].
    destruct (Z.ltb_spec max_lines n).
    + by rewrite filter_cons_True by done.
    + rewrite filter_cons_False by (unfold exceeds, report_lines; simpl; lia).
      by rewrite filter_nil, app_nil_r.
  - cbn [mbind option_bind]. change (option_list None) with (@nil report).
    by rewrite filter_nil, app_nil_r.
Qed.

Lemma candidates_from_cons content i line ls :
  candidates_from content i (line :: ls) =
    option_list (candidate_at content i line) ++ candidates_from content (i + 1) ls.
Proof. simpl. by destruct (candidate_at content i line). Qed.

Lemma line_loop_candidates max_lines content : ∀ ls i functions,
  1 ≤ i → i + len ls - 1 ≤ len (str_split LF content) →
  line_loop max_lines content i ls functions =
    Ok (functions ++ filter (exceeds max_lines) (candidates_from content i ls)).
Proof.
  induction ls as [|line ls IH]; intros i functions Hi Hlen.
  - simpl. by rewrite app_nil_r.
  - unfold len in *. cbn [length] in Hlen.
    cbn [line_loop]. rewrite pattern_loop_candidate by (unfold len; lia).
    cbn [bind]. rewrite IH by lia.
    by rewrite candidates_from_cons, filter_app, app_assoc.
Qed.

(** [find_functions], once the file is read: the candidates that exceed
    the threshold, in order. *)
Lemma find_in_content_candidates max_lines content :
  find_in_content max_lines content =
    Ok (filter (exceeds max_lines) (candidates content)).
Proof.
  unfold find_in_content, candidates. cbv zeta.
  rewrite line_loop_candidates; [done | lia | lia].
Qed.

(** ** The candidates of a file *)

Lemma candidate_at_line content i line r :
  candidate_at content i line = Some r → report_line r = i.
Proof.
  unfold candidate_at. destruct (first_match line) as [[p m]|]; [|done].
  simpl. destruct (count_function_lines content i); [|done]. by intros [= <-].
Qed.

Lemma candidates_from_elem content : ∀ ls i r,
  r ∈ candidates_from content i ls ↔
  ∃ (k : nat) line, ls !! k = Some line ∧ candidate_at content (i + Z.of_nat k) line = Some r.
Proof.
  induction ls as [|line ls IH]; intros i r.
  - simpl. split; [by intros ?%elem_of_nil|]. by intros (k & l & H & _).
  - rewrite candidates_from_cons, elem_of_app, IH. split.
    + intros [H | (k & l & Hl & Hc)].
      * exists 0%nat, line. split; [done|]. rewrite Z.add_0_r.
        destruct (candidate_at content i line); [|by apply elem_of_nil in H].
        by apply list_elem_of_singleton in H as ->.
      * exists (S k), l. split; [done|]. by rewrite Nat2Z.inj_succ, <- Z.add_1_l, Z.add_assoc.
    + intros ([|k] & l & Hl & Hc).
      * left. injection Hl as ->. rewrite Z.add_0_r in Hc. rewrite Hc.
        by apply list_elem_of_singleton.
      * right. exists k, l. split; [done|].
        by rewrite Nat2Z.inj_succ, <- Z.add_1_l, Z.add_assoc in Hc.
Qed.

Lemma candidates_from_lower content ls i r :
  r ∈ candidates_from content i ls → i ≤ report_line r.
Proof.
  intros (k & l & _ & Hc)%candidates_from_elem.
  apply candidate_at_line in Hc. lia.
Qed.

(** Line numbers only grow along the candidates. *)
Lemma candidates_from_sorted content : ∀ ls i,
  StronglySorted Z.lt (report_line <$> candidates_from content i ls).
Proof.
  induction ls as [|line ls IH]; intros i; [constructor|].
  rewrite candidates_from_cons.
  destruct (candidate_at content i line) as [c|] eqn:Hc; [|apply IH].
  change (option_list (Some c) ++ ?l) with (c :: l). rewrite fmap_cons.
  constructor; [apply IH|].
  apply Forall_fmap, Forall_forall. intros r Hr%candidates_from_lower.
  apply candidate_at_line in Hc. simpl. lia.
Qed.

Lemma StronglySorted_fmap_filter {A} (f : A → Z) (P : A → Prop)
    `{∀ x, Decision (P x)} (l : list A) :
  StronglySorted Z.lt (f <$> l) → StronglySorted Z.lt (f <$> filter P l).
Proof.
  induction l as [|x l IH]; [done|].
  rewrite fmap_cons, StronglySorted_cons. intros [Hall Hs].
  rewrite filter_cons. case_decide; [|auto].
  rewrite fmap_cons, StronglySorted_cons. split; [|auto].
  rewrite Forall_fmap in *. rewrite Forall_forall in *.
  intros y [_ Hy]%list_elem_of_filter. auto.
Qed.

(** The candidates on one line: the one [candidate_at] gives, if any. *)
Lemma candidates_from_on_line content : ∀ ls i (k : nat),
  filter (fun r => report_line r = i + Z.of_nat k) (candidates_from content i ls) =
    option_list (ls !! k ≫= candidate_at content (i + Z.of_nat k)).
Proof.
  assert (∀ ls i j, j < i →
    filter (fun r => report_line r = j) (candidates_from content i ls) = []) as Hlow.
  { intros ls i j Hj. apply elem_of_nil_inv.
    intros r [Hr Hin%candidates_from_lower]%list_elem_of_filter. lia. }
  induction ls as [|line ls IH]; intros i k; [done|].
  rewrite candidates_from_cons, filter_app. destruct k as [|k].
  - rewrite Z.add_0_r. rewrite Hlow by lia. rewrite app_nil_r. simpl.
    destruct (candidate_at content i line) as [c|] eqn:Hc; [|done].
    apply candidate_at_line in Hc.
    change (option_list (Some c)) with [c]. by rewrite filter_cons_True.
  - replace (i + Z.of_nat (S k)) with (i + 1 + Z.of_nat k) by lia.
    rewrite IH. simpl.
    destruct (candidate_at content i line) as [c|] eqn:Hc; [|done].
    apply candidate_at_line in Hc.
    change (option_list (Some c)) with [c].
    rewrite filter_cons_False by lia. done.
Qed.

(** ** The run *)

Lemma report_loop_prints max_lines ts_file : ∀ functions w,
  report_loop max_lines ts_file functions w =
    World (stdout w ++ error_lines max_lines ts_file functions)
          (raised_code (error_lines max_lines ts_file functions) (EXIT_CODE w)).
Proof.
  induction functions as [|[[i name] n] functions IH]; intros [out code].
  - simpl. by rewrite app_nil_r.
  - cbn [report_loop]. rewrite IH. unfold print. simpl.
    rewrite <- app_assoc. f_equal.
    by destruct (error_lines max_lines ts_file functions).
Qed.

Lemma file_loop_prints max_lines fs : ∀ files w,
  file_loop max_lines fs files w =
    (World (stdout w ++ (file_prints max_lines fs files).1)
           (raised_code (file_prints max_lines fs files).1 (EXIT_CODE w)),
     (file_prints max_lines fs files).2).
Proof.
  induction files as [|f files IH]; intros [out code]; simpl.
  - by rewrite app_nil_r.
  - destruct (find_functions max_lines fs f) as [functions|e]; simpl.
    + rewrite IH, report_loop_prints. simpl. rewrite <- app_assoc. do 2 f_equal.
      destruct (error_lines max_lines f functions); simpl; [done|].
      by destruct (file_prints max_lines fs files).1.
    + by rewrite app_nil_r.
Qed.

Lemma find_functions_Ok max_lines fs p :
  (∃ functions, find_functions max_lines fs p = Ok functions) ↔ readable fs p.
Proof.
  unfold find_functions, readable. destruct (fs_read fs p) as [content|e]; simpl.
  - rewrite find_in_content_candidates. split; eauto.
  - split; intros [? ?]; done.
Qed.

Lemma file_prints_Ok max_lines fs files :
  (file_prints max_lines fs files).2 = Ok tt ↔ Forall (readable fs) files.
Proof.
  induction files as [|f files IH]; simpl; [by split|].
  rewrite Forall_cons, <- IH, <- (find_functions_Ok max_lines).
  destruct (find_functions max_lines fs f); simpl; [|split; [done|]].
  - split; eauto. by intros [_ ?].
  - by intros [[? ?] _].
Qed.

Lemma file_prints_errors max_lines fs files :
  Forall (fun p => is_Some (violation_of p)) (file_prints max_lines fs files).1.
Proof.
  induction files as [|f files IH]; simpl; [done|].
  destruct (find_functions max_lines fs f) as [functions|e]; simpl; [|done].
  apply Forall_app. split; [|done].
  unfold error_lines. apply Forall_fmap, Forall_forall. intros r _. simpl. eauto.
Qed.

Lemma omap_violation_nil (out : list printed) :
  Forall (fun p => is_Some (violation_of p)) out →
  omap violation_of out = [] ↔ out = [].
Proof.
  destruct out as [|p out]; [done|]. intros [[v Hv] _]%Forall_cons.
  simpl. rewrite Hv. done.
Qed.

(** The run in closed form. *)
Lemma main_with_prints max_lines fs out code :
  main_with max_lines fs (World out code) =
    let head := out ++ [PHeader max_lines; PBlank] in
    if negb (fs_exists fs) then (World (head ++ [PNoSrc]) code, SystemExit 1)
    else
      let prints := (file_prints max_lines fs (fs_rglob fs)).1 in
      let code' := raised_code prints code in
      match (file_prints max_lines fs (fs_rglob fs)).2 with
      | Raise e => (World (head ++ prints) code', Uncaught e)
      | Ok _ =>
          (World (head ++ prints ++
                    (if code' =? 0 then [PAllWithin max_lines]
                     else [PBlank; PRefactor max_lines])) code',
           SystemExit code')
      end.
Proof.
  unfold main_with, print. simpl. rewrite <- !app_assoc. simpl.
  destruct (fs_exists fs); simpl; [|done].
  rewrite file_loop_prints. simpl.
  destruct (file_prints max_lines fs (fs_rglob fs)).2; simpl.
  - destruct (raised_code _ code =? 0); simpl; rewrite <- ?app_assoc; done.
  - rewrite <- ?app_assoc. done.
Qed.

(** ** Properties of count_function_lines *)

(** C1. For a start line of the file, with the running balance of opening
    minus closing braces taken over the lines from the start line on:
    when line [k] of them (counted from 0) is the first whose balance is at
    most 0 and which holds a closing brace, [count_function_lines] returns
    [k + 1], the lines consumed with the start line included. A start line
    without any brace does not satisfy the stop condition, and the scan goes
    on as it would from the next line: the result is one more than the
    measure taken from there. *)
Theorem count_function_lines_first_stop (content : str) (start_line : Z) :
  1 ≤ start_line ≤ len (str_split LF content) →
  (∀ k : nat,
     stops (lines_from content start_line) k →
     (∀ k' : nat, (k' < k)%nat → ¬ stops (lines_from content start_line) k') →
     count_function_lines content start_line = Ok (Z.of_nat k + 1)) ∧
  (∀ line,
     lines_from content start_line !! 0%nat = Some line →
     LBRACE ∉ line → RBRACE ∉ line →
     ¬ stops (lines_from content start_line) 0 ∧
     count_function_lines content start_line =
       (n <- count_function_lines content (start_line + 1) ;; Ok (n + 1))).
Proof.
  intros Hrange. split.
  - intros k Hk Hmin.
    rewrite count_function_lines_find_stop by lia.
    assert (find_stop 0 (lines_from content start_line) = Some k) as ->; [|done].
    apply find_stop_Some. split; [by apply stops_with_0|].
    intros k' Hk'. rewrite stops_with_0. by apply Hmin.
  - intros line Hline Hopen Hclose. split.
    { intros (l & Hl & _ & Hin). congruence. }
    destruct (lines_from content start_line) as [|line' ls] eqn:Hls; [done|].
    injection Hline as ->.
    pose proof (lines_from_succ _ _ _ _ (proj1 Hrange) Hls) as Hnext.
    rewrite !count_function_lines_find_stop by lia. rewrite Hls, Hnext.
    cbn [find_stop bind].
    assert (str_contains RBRACE line = false) as ->.
    { destruct (str_contains RBRACE line) eqn:Hc; [|done].
      by apply str_contains_elem_of in Hc. }
    rewrite andb_false_r.
    assert (delta line = 0) as ->.
    { unfold delta. rewrite !str_count_absent by done. lia. }
    rewrite Z.add_0_l. cbn [andb].
    destruct (find_stop 0 ls); cbn [fmap option_fmap option_map]; f_equal;
      unfold len; cbn [length]; lia.
Qed.

(** C4. For a start line of the file, when no line from the start line on
    satisfies the stop condition, [count_function_lines] returns the number
    of lines from the start line through the last line of the file. *)
Theorem count_function_lines_no_stop (content : str) (start_line : Z) :
  1 ≤ start_line ≤ len (str_split LF content) →
  (∀ k : nat, ¬ stops (lines_from content start_line) k) →
  count_function_lines content start_line =
    Ok (len (str_split LF content) - start_line + 1) ∧
  len (lines_from content start_line) = len (str_split LF content) - start_line + 1.
Proof.
  intros Hrange Hno.
  rewrite count_function_lines_find_stop by lia.
  rewrite lines_from_length by lia. split; [|done].
  assert (find_stop 0 (lines_from content start_line) = None) as ->; [|done].
  apply find_stop_None. intros k. rewrite stops_with_0. apply Hno.
Qed.

(** C5. For a start line of the file, [count_function_lines] returns a
    span of at least 1. *)
Theorem count_function_lines_ge_1 (content : str) (start_line : Z) :
  1 ≤ start_line ≤ len (str_split LF content) →
  ∃ n, count_function_lines content start_line = Ok n ∧ 1 ≤ n.
Proof.
  intros Hrange.
  destruct (count_function_lines_bounds content start_line Hrange) as (n & Hn & Hge & _).
  by exists n.
Qed.

(** C10. For a start line of the file, the span [count_function_lines]
    returns is at most the number of lines from the start line through the
    end of the file: (total line count) - start_line + 1. *)
Theorem count_function_lines_le_remaining (content : str) (start_line : Z) :
  1 ≤ start_line ≤ len (str_split LF content) →
  ∃ n, count_function_lines content start_line = Ok n ∧
       n ≤ len (str_split LF content) - start_line + 1.
Proof.
  intros Hrange.
  destruct (count_function_lines_bounds content start_line Hrange) as (n & Hn & _ & Hle).
  by exists n.
Qed.

(** ** Properties of find_functions *)

(** Each of the six patterns closes a group whichever way it matches, and
    numbers its groups from 1. *)
Lemma patterns_close_group : Forall (fun p => closes_group p = true) patterns.
Proof. repeat constructor. Qed.

Lemma patterns_groups_positive :
  Forall (fun p => Forall (fun g => g ≠ O) (groups_of p)) patterns.
Proof. repeat (constructor; try done). Qed.

Lemma first_match_pattern line p m :
  first_match line = Some (p, m) → p ∈ patterns ∧ re_search p line = Some m.
Proof.
  intros (ps1 & ps2 & Heq & _ & Hm)%first_match_in_Some. split; [|done].
  rewrite Heq. apply elem_of_app. right. apply elem_of_cons. by left.
Qed.

Lemma candidates_on_line content (k : nat) line :
  str_split LF content !! k = Some line →
  filter (fun r => report_line r = Z.of_nat k + 1) (candidates content) =
    option_list (candidate_at content (Z.of_nat k + 1) line).
Proof.
  intros Hk. unfold candidates.
  rewrite (Z.add_comm (Z.of_nat k) 1), candidates_from_on_line, Hk. done.
Qed.

Lemma candidate_at_first_match content (k : nat) line p m :
  str_split LF content !! k = Some line →
  first_match line = Some (p, m) →
  ∃ n, count_function_lines content (Z.of_nat k + 1) = Ok n ∧ 1 ≤ n ∧
       candidate_at content (Z.of_nat k + 1) line =
         Some (Z.of_nat k + 1, func_name_of m, n).
Proof.
  intros Hk Hm. apply lookup_lt_Some in Hk.
  destruct (count_function_lines_bounds content (Z.of_nat k + 1)) as (n & Hn & Hge & _).
  { unfold len. lia. }
  exists n. unfold candidate_at. rewrite Hm. simpl. by rewrite Hn.
Qed.

Lemma candidates_span_ge_1 content r : r ∈ candidates content → 1 ≤ report_lines r.
Proof.
  intros (k & line & Hk & Hc)%candidates_from_elem.
  unfold candidate_at in Hc. destruct (first_match line) as [[p m]|] eqn:Hm; [|done].
  destruct (candidate_at_first_match _ _ _ _ _ Hk Hm) as (n & Hn & Hge & _).
  simpl in Hc. rewrite (Z.add_comm 1), Hn in Hc. by injection Hc as <-.
Qed.

(** A match of one of the six patterns: [lastindex] and the name. *)
Lemma search_pattern_group (pattern : regex) (line : str) (m : Match) :
  pattern ∈ patterns →
  re_search pattern line = Some m →
  ∃ (g a b : nat),
    m_lastindex m = Some g ∧ g ≠ O ∧ g ∈ groups_of pattern ∧
    m_groups m !! g = Some (a, b) ∧ (a ≤ b ≤ length line)%nat ∧
    m_group m g = Some (str_slice line a b) ∧
    func_name_of m = Some (str_slice line a b).
Proof.
  intros Hp Hm.
  pose proof patterns_close_group as Hc. rewrite Forall_forall in Hc.
  pose proof patterns_groups_positive as Hg. rewrite Forall_forall in Hg.
  destruct (re_search_lastindex _ _ _ (Hc _ Hp) Hm) as (g & a & b & Hl & HgG & Hgr & Hle & Hs).
  specialize (Hg _ Hp). rewrite Forall_forall in Hg. specialize (Hg _ HgG).
  assert (m_group m g = Some (str_slice line a b)) as Hgroup.
  { unfold m_group. rewrite Hgr, Hs. done. }
  exists g, a, b. repeat split; try done; try lia.
  unfold func_name_of. rewrite Hl.
  destruct (Nat.eqb_spec g 0); [done|]. done.
Qed.

(** C9. Whenever one of the six patterns matches a line, [lastindex] is
    set: it is the number, not 0, of a group of that pattern which took
    part in the match, so the name given to the candidate is never the
    fallback but the text of the line that this group captured. *)
Theorem lastindex_always_set (pattern : regex) (line : str) (m : Match) :
  pattern ∈ patterns →
  re_search pattern line = Some m →
  ∃ (g a b : nat),
    m_lastindex m = Some g ∧ g ≠ O ∧ g ∈ groups_of pattern ∧
    m_groups m !! g = Some (a, b) ∧ (a ≤ b ≤ length line)%nat ∧
    m_group m g = Some (str_slice line a b) ∧
    func_name_of m = Some (str_slice line a b).
Proof. apply search_pattern_group. Qed.

(** The name extraction on the match of any pattern: the text of the group
    [lastindex] designates, and the literal [anonymous] when [lastindex] is
    unset, which is when no group captured anything. *)
Lemma func_name_of_search (r : regex) (line : str) (m : Match) :
  re_search r line = Some m →
  Forall (fun g => g ≠ O) (groups_of r) →
  match m_lastindex m with
  | Some g => ∃ a b, m_groups m !! g = Some (a, b) ∧
                     func_name_of m = Some (str_slice line a b)
  | None => m_groups m = ∅ ∧ func_name_of m = Some anonymous
  end.
Proof.
  intros [Hs Hl]%re_search_groups Hpos. unfold func_name_of, m_group.
  destruct (m_lastindex m) as [g|]; [|done].
  destruct Hl as (Hg & a & b & Hgr & _). exists a, b. split; [done|].
  rewrite Forall_forall in Hpos. specialize (Hpos _ Hg).
  destruct (Nat.eqb_spec g 0); [done|]. rewrite Hgr, Hs. done.
Qed.

(** C6. On a line that matches one of the patterns, the candidate of that
    line carries the name taken from the match of the first pattern that
    matches: the text captured by the group [lastindex] designates, and the
    literal [anonymous] when [lastindex] is unset, in which case no group
    captured anything. That candidate is what [find_functions] reports for
    the line under any threshold below its span. *)
Theorem candidate_name_from_group (content : str) (k : nat) (line : str)
    (p : regex) (m : Match) :
  str_split LF content !! k = Some line →
  first_match line = Some (p, m) →
  ∃ name n,
    filter (fun r => report_line r = Z.of_nat k + 1) (candidates content) =
      [(Z.of_nat k + 1, name, n)] ∧
    (∀ max_lines, max_lines < n →
       ∃ vs, find_in_content max_lines content = Ok vs ∧
             (Z.of_nat k + 1, name, n) ∈ vs) ∧
    name = func_name_of m ∧
    match m_lastindex m with
    | Some g => g ∈ groups_of p ∧
        ∃ a b, m_groups m !! g = Some (a, b) ∧ name = Some (str_slice line a b)
    | None => m_groups m = ∅ ∧ name = Some anonymous
    end.
Proof.
  intros Hk Hm.
  destruct (candidate_at_first_match _ _ _ _ _ Hk Hm) as (n & Hn & Hge & Hc).
  pose proof (candidates_on_line _ _ _ Hk) as Hline. rewrite Hc in Hline.
  exists (func_name_of m), n. split; [done|]. split; [|split; [done|]].
  - intros max_lines Hmax. rewrite find_in_content_candidates.
    eexists. split; [done|]. apply list_elem_of_filter. split; [done|].
    assert ((Z.of_nat k + 1, func_name_of m, n) ∈
      filter (fun r => report_line r = Z.of_nat k + 1) (candidates content)) as Hin.
    { rewrite Hline. by apply list_elem_of_singleton. }
    by apply list_elem_of_filter in Hin as [_ ?].
  - apply first_match_pattern in Hm as [Hp Hs].
    pose proof patterns_groups_positive as Hpos. rewrite Forall_forall in Hpos.
    pose proof (func_name_of_search _ _ _ Hs (Hpos _ Hp)) as Hname.
    pose proof (re_search_groups _ _ _ Hs) as [_ Hl].
    destruct (m_lastindex m) as [g|]; [|done].
    destruct Hl as [Hg _]. done.
Qed.

(** C7. A line gives at most one candidate. When some pattern matches it,
    the pattern used is the first of the list, in order, that matches (all
    the patterns before it fail) and the line has exactly one candidate;
    when none matches, it has no candidate. The candidates of a file, and
    with them the violations [find_functions] returns for any threshold,
    come in ascending order of line number. *)
Theorem one_candidate_per_line (content : str) :
  (∀ (k : nat) line,
     str_split LF content !! k = Some line →
     match first_match line with
     | Some (p, m) =>
         (∃ ps1 ps2, patterns = ps1 ++ p :: ps2 ∧
            Forall (fun q => re_search q line = None) ps1 ∧
            re_search p line = Some m) ∧
         ∃ n, filter (fun r => report_line r = Z.of_nat k + 1) (candidates content) =
                [(Z.of_nat k + 1, func_name_of m, n)]
     | None =>
         Forall (fun q => re_search q line = None) patterns ∧
         filter (fun r => report_line r = Z.of_nat k + 1) (candidates content) = []
     end) ∧
  StronglySorted Z.lt (report_line <$> candidates content) ∧
  (∀ max_lines, ∃ vs,
     find_in_content max_lines content = Ok vs ∧
     vs = filter (exceeds max_lines) (candidates content) ∧
     StronglySorted Z.lt (report_line <$> vs)) ∧
  find_in_content 0 content = Ok (candidates content).
Proof.
  split; [|split; [|split]].
  - intros k line Hk. rewrite (candidates_on_line _ _ _ Hk).
    destruct (first_match line) as [[p m]|] eqn:Hm.
    + split; [by apply first_match_in_Some|].
      destruct (candidate_at_first_match _ _ _ _ _ Hk Hm) as (n & _ & _ & ->).
      by exists n.
    + split; [by apply first_match_in_None|].
      unfold candidate_at. by rewrite Hm.
  - apply candidates_from_sorted.
  - intros max_lines. eexists. split; [apply find_in_content_candidates|].
    split; [done|]. apply StronglySorted_fmap_filter, candidates_from_sorted.
  - rewrite find_in_content_candidates. f_equal.
    assert (Forall (exceeds 0) (candidates content)) as Hall.
    { apply Forall_forall. intros r Hr%candidates_span_ge_1. unfold exceeds. lia. }
    induction Hall as [|r l Hr Hl IH]; [done|].
    by rewrite filter_cons_True, IH.
Qed.

(** C2. For a candidate (a line of the file that some pattern matches) and
    a threshold of at least 1: when the measured span equals the threshold,
    [find_functions] returns no violation for that line; when it equals the
    threshold plus one, it returns exactly one, with that span. The test is
    the strict [func_lines > max_lines]. *)
Theorem find_functions_boundary (max_lines : Z) (fs : filesystem)
    (file_path : path) (content : str) (k : nat) (line : str) (p : regex) (m : Match) :
  1 ≤ max_lines →
  fs_read fs file_path = Ok content →
  str_split LF content !! k = Some line →
  first_match line = Some (p, m) →
  ∃ vs,
    find_functions max_lines fs file_path = Ok vs ∧
    (count_function_lines content (Z.of_nat k + 1) = Ok max_lines →
       filter (fun r => report_line r = Z.of_nat k + 1) vs = []) ∧
    (count_function_lines content (Z.of_nat k + 1) = Ok (max_lines + 1) →
       filter (fun r => report_line r = Z.of_nat k + 1) vs =
         [(Z.of_nat k + 1, func_name_of m, max_lines + 1)]) ∧
    (∀ r, r ∈ vs ↔ r ∈ candidates content ∧ max_lines < report_lines r).
Proof.
  intros _ Hread Hk Hm. unfold find_functions. rewrite Hread. cbn [bind].
  rewrite find_in_content_candidates. eexists. split; [done|].
  destruct (candidate_at_first_match _ _ _ _ _ Hk Hm) as (n & Hn & _ & Hc).
  pose proof (candidates_on_line _ _ _ Hk) as Hline. rewrite Hc in Hline.
  change (option_list (Some ?x)) with [x] in Hline.
  assert (∀ P `{∀ x, Decision (P x)} (l : list report),
    filter (fun r => report_line r = Z.of_nat k + 1) (filter P l) =
    filter P (filter (fun r => report_line r = Z.of_nat k + 1) l)) as Hcomm.
  { intros P ? l. induction l as [|x l IH]; [done|].
    rewrite !filter_cons. repeat case_decide; rewrite ?filter_cons;
      repeat case_decide; try done; by rewrite IH. }
  rewrite Hcomm, Hline. split; [|split].
  - intros Heq. rewrite Hn in Heq. injection Heq as ->.
    rewrite filter_cons_False; [done|]. unfold exceeds, report_lines. simpl. lia.
  - intros Heq. rewrite Hn in Heq. injection Heq as ->.
    rewrite filter_cons_True; [done|]. unfold exceeds, report_lines. simpl. lia.
  - intros r. rewrite list_elem_of_filter. unfold exceeds. tauto.
Qed.

(** ** Properties of the run *)

Lemma violations_of_run (out tail : list printed) code :
  Forall (fun p => is_Some (violation_of p)) out →
  Forall (fun p => violation_of p = None) tail →
  violations (World ([PHeader MAX_LINES; PBlank] ++ out ++ tail) code) =
    omap violation_of out ∧
  (omap violation_of out = [] ↔ out = []).
Proof.
  intros Hout Htail. split; [|by apply omap_violation_nil].
  unfold violations. simpl. rewrite omap_app.
  assert (omap violation_of tail = []) as ->; [|by rewrite app_nil_r].
  induction Htail as [|p tail Hp _ IH]; [done|]. simpl. by rewrite Hp.
Qed.

Lemma raised_code_0 (out : list printed) : raised_code out 0 = 0 ↔ out = [].
Proof. by destruct out. Qed.

Lemma raised_code_cases (out : list printed) :
  raised_code out 0 = 0 ∨ raised_code out 0 = 1.
Proof. destruct out; auto. Qed.

Lemma raised_code_idem (out : list printed) code :
  raised_code out (raised_code out code) = raised_code out code.
Proof. by destruct out. Qed.

(** C3 (amended). The script exits with status 0 exactly when [src] exists,
    every file of the scan can be read and no violation was found; a
    missing [src] or a violation gives status 1, and the status is never
    anything but 0 or 1. With [src] missing the run ends at once with
    [sys.exit(1)]: it prints the header and the error, reports no violation
    and never looks at a file. *)
Theorem script_exit_status (fs : filesystem) :
  (exit_status (script fs).2 = 0 ↔
     fs_exists fs = true ∧ Forall (readable fs) (fs_rglob fs) ∧
     violations (script fs).1 = []) ∧
  (fs_exists fs = false ∨ violations (script fs).1 ≠ [] →
     exit_status (script fs).2 = 1) ∧
  (exit_status (script fs).2 = 0 ∨ exit_status (script fs).2 = 1) ∧
  (fs_exists fs = false →
     script fs = (World [PHeader MAX_LINES; PBlank; PNoSrc] 0, SystemExit 1) ∧
     violations (script fs).1 = []).
Proof.
  unfold script, main. rewrite main_with_prints. cbv zeta.
  pose proof (file_prints_Ok MAX_LINES fs (fs_rglob fs)) as Hok.
  pose proof (file_prints_errors MAX_LINES fs (fs_rglob fs)) as Herr.
  destruct (fs_exists fs); simpl negb; cbv iota.
  2:{ simpl. repeat split; auto; try done. by intros [? _]. }
  set (prints := (file_prints MAX_LINES fs (fs_rglob fs)).1) in *.
  pose proof (raised_code_0 prints) as Hcode.
  pose proof (raised_code_cases prints) as Hcases.
  destruct (file_prints MAX_LINES fs (fs_rglob fs)).2 as [[]|e].
  - assert (Forall (fun p => violation_of p = None)
      (if raised_code prints 0 =? 0 then [PAllWithin MAX_LINES]
       else [PBlank; PRefactor MAX_LINES])) as Htail.
    { destruct (raised_code prints 0 =? 0); repeat constructor. }
    destruct (violations_of_run prints _ (raised_code prints 0) Herr Htail) as [Hv Hnil].
    cbn [fst snd exit_status]. cbn [app] in Hv |- *. rewrite Hv.
    split; [|split; [|split]].
    + split.
      * intros H0. split; [done|]. split; [by apply Hok|]. by apply Hnil, Hcode.
      * intros (_ & _ & Hv0). by apply Hcode, Hnil.
    + intros [?|Hne]; [done|]. destruct Hcases as [H0|H1]; [|done].
      exfalso. by apply Hne, Hnil, Hcode.
    + exact Hcases.
    + done.
  - destruct (violations_of_run prints [] (raised_code prints 0) Herr) as [Hv Hnil];
      [constructor|].
    cbn [fst snd exit_status]. rewrite app_nil_r in Hv. cbn [app] in Hv |- *.
    rewrite Hv. split; [|split; [|split]].
    + split; [done|]. intros (_ & Hall & _). apply Hok in Hall. done.
    + done.
    + by right.
    + done.
Qed.

Lemma file_prints_ext max_lines fs fs' files :
  (∀ p, p ∈ files → fs_read fs' p = fs_read fs p) →
  file_prints max_lines fs' files = file_prints max_lines fs files.
Proof.
  induction files as [|f files IH]; intros Hext; [done|].
  simpl. unfold find_functions. rewrite Hext by (apply elem_of_cons; auto).
  rewrite IH; [done|]. intros p Hp. apply Hext, elem_of_cons. auto.
Qed.

(** C8. A second run over the same directory gives what the first gave:
    the same output, hence the same violations, and the same exit status,
    even when the second run starts from the [EXIT_CODE] the first one
    left behind, which is the only thing a run writes. And the result is
    a function of what the scan reads: whether [src] exists, the files the
    walk yields and the text of those files. *)
Theorem scan_repeatable (fs : filesystem) :
  (main fs (World [] (EXIT_CODE (main fs (World [] 0)).1)) = main fs (World [] 0)) ∧
  (violations (main fs (World [] (EXIT_CODE (script fs).1))).1 = violations (script fs).1) ∧
  (exit_status (main fs (World [] (EXIT_CODE (script fs).1))).2 = exit_status (script fs).2) ∧
  (∀ fs',
     fs_exists fs' = fs_exists fs →
     fs_rglob fs' = fs_rglob fs →
     (∀ p, p ∈ fs_rglob fs → fs_read fs' p = fs_read fs p) →
     script fs' = script fs).
Proof.
  assert (main fs (World [] (EXIT_CODE (main fs (World [] 0)).1)) = main fs (World [] 0))
    as Hsame.
  { unfold main. rewrite !main_with_prints. cbv zeta.
    destruct (fs_exists fs); simpl negb; cbv iota; [|done].
    destruct (file_prints MAX_LINES fs (fs_rglob fs)).2;
      cbn [fst snd EXIT_CODE]; by rewrite raised_code_idem. }
  split; [done|]. unfold script. rewrite Hsame. split; [done|]. split; [done|].
  intros fs' Hex Hglob Hread. unfold main. rewrite !main_with_prints. cbv zeta.
  rewrite Hex, Hglob, (file_prints_ext _ fs fs'); done.
Qed.

(** ** Further properties of count_function_lines *)

(** The loop over any stretch of lines it can read, whatever the indices. *)
Lemma count_loop_visits (lines : list str) (function_start : Z) (ls : list str) :
  ∀ (i bc : Z) (inf : bool),
    (∀ (k : nat) line, ls !! k = Some line → py_index lines (i + Z.of_nat k) = Ok line) →
    count_loop lines function_start (length ls) i bc inf =
      Ok (match find_stop bc ls with
          | Some k => i + Z.of_nat k - function_start + 1
          | None => len lines - function_start
          end).
Proof.
  induction ls as [|line ls IH]; intros i bc inf Hidx; [done|].
  cbn [length count_loop find_stop].
  pose proof (Hidx 0%nat line eq_refl) as H0. rewrite Z.add_0_r in H0.
  rewrite H0. cbn [bind]. rewrite in_function_set. fold (delta line). cbn [andb].
  destruct ((bc + delta line <=? 0) && str_contains RBRACE line).
  - f_equal. lia.
  - rewrite IH.
    + destruct (find_stop (bc + delta line) ls); simpl; f_equal; lia.
    + intros k l Hk. replace (i + 1 + Z.of_nat k) with (i + Z.of_nat (S k)) by lia.
      by apply Hidx.
Qed.

Lemma py_index_negative {A} (l : list A) (i : Z) (j : nat) x :
  i < 0 → len l + i = Z.of_nat j → l !! j = Some x → py_index l i = Ok x.
Proof.
  intros Hneg Hj Hx. pose proof (lookup_lt_Some _ _ _ Hx) as Hlt.
  unfold py_index. destruct (Z.ltb_spec i 0); [|lia]. rewrite Hj.
  unfold len in *.
  destruct (Z.leb_spec 0 (Z.of_nat j)); [|lia].
  destruct (Z.ltb_spec (Z.of_nat j) (Z.of_nat (length l))); [|lia].
  simpl. by rewrite Nat2Z.id, Hx.
Qed.

Lemma py_index_too_low {A} (l : list A) (i : Z) :
  i < - len l → py_index l i = Raise IndexError.
Proof.
  intros H. unfold py_index, len in *.
  destruct (Z.ltb_spec i 0); [|lia].
  destruct (Z.leb_spec 0 (Z.of_nat (length l) + i)); [lia|]. done.
Qed.

Lemma wrapped_lines_length content start_line :
  - len (str_split LF content) < start_line ≤ 0 →
  len (wrapped_lines content start_line) = len (str_split LF content) - start_line + 1.
Proof.
  intros H. unfold wrapped_lines, len in *. rewrite length_app, length_drop. lia.
Qed.

(** A start line of zero or below, down to minus the number of lines: the
    scan runs over [wrapped_lines]. *)
Lemma count_function_lines_wrapped content start_line :
  - len (str_split LF content) < start_line ≤ 0 →
  count_function_lines content start_line =
    Ok (match find_stop 0 (wrapped_lines content start_line) with
        | Some k => Z.of_nat k + 1
        | None => len (wrapped_lines content start_line)
        end).
Proof.
  intros H. pose proof (wrapped_lines_length content start_line H) as Hlen.
  unfold count_function_lines. cbv zeta.
  replace (Z.to_nat (len (str_split LF content) - (start_line - 1)))
    with (length (wrapped_lines content start_line)) by (unfold len in *; lia).
  rewrite (count_loop_visits _ _ (wrapped_lines content start_line)).
  - destruct (find_stop 0 (wrapped_lines content start_line)); f_equal; lia.
  - intros k line Hk. unfold wrapped_lines in Hk. unfold len in *.
    set (lines := str_split LF content) in *.
    set (d := Z.to_nat (Z.of_nat (length lines) + (start_line - 1))) in *.
    assert (length (drop d lines) = Z.to_nat (1 - start_line)) as Hd.
    { rewrite length_drop. lia. }
    destruct (decide (k < length (drop d lines))%nat) as [Hlt|Hge].
    + rewrite lookup_app_l in Hk by done. rewrite lookup_drop in Hk.
      apply (py_index_negative _ _ (d + k)); [lia | unfold len; lia | done].
    + rewrite lookup_app_r in Hk by lia.
      replace (start_line - 1 + Z.of_nat k)
        with (Z.of_nat (k - length (drop d lines))) by lia.
      by apply py_index_lookup.
Qed.

(** X1. [count_function_lines] raises exactly when the start line is at or
    below minus the number of lines of the file, and what it raises is
    [IndexError]: the first line it indexes, counted from the end, is not
    there. Any other start line gives a number. *)
Theorem count_function_lines_raises (content : str) (start_line : Z) :
  (count_function_lines content start_line = Raise IndexError ↔
     start_line ≤ - len (str_split LF content)) ∧
  (∀ e, count_function_lines content start_line = Raise e → e = IndexError) ∧
  (- len (str_split LF content) < start_line ↔
     ∃ n, count_function_lines content start_line = Ok n).
Proof.
  pose proof (str_split_nonempty LF content) as Hne.
  assert (1 ≤ len (str_split LF content)) as Hlen.
  { unfold len. destruct (str_split LF content); [done | simpl; lia]. }
  assert (start_line ≤ - len (str_split LF content) →
          count_function_lines content start_line = Raise IndexError) as Hlow.
  { intros H. unfold count_function_lines. cbv zeta.
    destruct (Z.to_nat (len (str_split LF content) - (start_line - 1))) as [|n] eqn:Hn; [lia|].
    cbn [count_loop]. rewrite py_index_too_low by lia. done. }
  assert (- len (str_split LF content) < start_line →
          ∃ n, count_function_lines content start_line = Ok n) as Hhigh.
  { intros H. destruct (Z.le_gt_cases start_line 0).
    - rewrite count_function_lines_wrapped by lia. eauto.
    - destruct (Z.le_gt_cases start_line (len (str_split LF content) + 1)).
      + rewrite count_function_lines_find_stop by lia. eauto.
      + unfold count_function_lines. cbv zeta.
        replace (Z.to_nat (len (str_split LF content) - (start_line - 1))) with O by lia.
        simpl. eauto. }
  split; [|split].
  - split; [|done]. intros Hr.
    destruct (Z.le_gt_cases start_line (- len (str_split LF content))); [done|].
    destruct Hhigh as [n Hn]; [lia|]. congruence.
  - intros e He.
    destruct (Z.le_gt_cases start_line (- len (str_split LF content))) as [Hl|Hg].
    + rewrite Hlow in He by done. congruence.
    + destruct Hhigh as [n Hn]; [lia|]. congruence.
  - split; [done|]. intros [n Hn].
    destruct (Z.le_gt_cases start_line (- len (str_split LF content))) as [Hl|Hg]; [|lia].
    rewrite Hlow in Hn by done. done.
Qed.

(** X2. A start line past the last line of the file reads no line at all:
    the result is the number of lines minus the start line plus one, which
    is zero or negative. *)
Theorem count_function_lines_past_end (content : str) (start_line : Z) :
  len (str_split LF content) < start_line →
  count_function_lines content start_line =
    Ok (len (str_split LF content) - start_line + 1) ∧
  len (str_split LF content) - start_line + 1 ≤ 0.
Proof.
  intros H. split; [|lia]. unfold count_function_lines. cbv zeta.
  replace (Z.to_nat (len (str_split LF content) - (start_line - 1))) with O by lia.
  simpl. f_equal. lia.
Qed.

(** X3. A start line of zero or below, above minus the number of lines,
    wraps around: the scan measures the last [1 - start_line] lines of the
    file followed by the whole file, with the same rule as for a start line
    of the file. The span is at least 1 and at most the number of lines
    visited. *)
Theorem count_function_lines_wraps (content : str) (start_line : Z) :
  - len (str_split LF content) < start_line ≤ 0 →
  ∃ n,
    count_function_lines content start_line = Ok n ∧
    1 ≤ n ≤ len (str_split LF content) - start_line + 1 ∧
    (∀ k : nat,
       stops (wrapped_lines content start_line) k →
       (∀ k' : nat, (k' < k)%nat → ¬ stops (wrapped_lines content start_line) k') →
       n = Z.of_nat k + 1) ∧
    ((∀ k : nat, ¬ stops (wrapped_lines content start_line) k) →
       n = len (str_split LF content) - start_line + 1).
Proof.
  intros H. rewrite count_function_lines_wrapped by done.
  pose proof (wrapped_lines_length content start_line H) as Hlen.
  eexists. split; [done|]. split; [|split].
  - destruct (find_stop 0 (wrapped_lines content start_line)) as [k|] eqn:Hk; [|lia].
    apply find_stop_lt in Hk. unfold len in *. lia.
  - intros k Hk Hmin.
    assert (find_stop 0 (wrapped_lines content start_line) = Some k) as ->; [|done].
    apply find_stop_Some. split; [by apply stops_with_0|].
    intros k' Hk'. rewrite stops_with_0. by apply Hmin.
  - intros Hno.
    assert (find_stop 0 (wrapped_lines content start_line) = None) as ->; [|lia].
    apply find_stop_None. intros k. rewrite stops_with_0. apply Hno.
Qed.

(** While the scan has not stopped the balance it carries is not negative:
    a line without a closing brace cannot lower it, and a line with one
    that brought it to zero or below would have stopped the scan. *)
Lemma balance_nonneg_before_stop : ∀ (ls : list str) (bc : Z) (j : nat),
  0 ≤ bc →
  (j < length ls)%nat →
  (∀ k : nat, (k ≤ j)%nat → ¬ stops_with bc ls k) →
  0 ≤ bc + balance ls j.
Proof.
  induction ls as [|line ls IH]; intros bc j Hbc Hj Hno; [simpl in Hj; lia|].
  assert (0 ≤ bc + delta line) as Hbc'.
  { destruct (decide (RBRACE ∈ line)) as [Hin|Hout].
    - destruct (Z.le_gt_cases (bc + delta line) 0) as [Hle|]; [|lia].
      exfalso. apply (Hno 0%nat); [lia|].
      exists line. rewrite balance_0. done.
    - unfold delta. rewrite (str_count_absent _ _ Hout).
      pose proof (str_count_nonneg LBRACE line). lia. }
  destruct j as [|j].
  - by rewrite balance_0.
  - rewrite balance_cons, Z.add_assoc. apply IH; [done | simpl in Hj; lia |].
    intros k Hk. rewrite <- stops_with_S. apply Hno. lia.
Qed.

Lemma find_stop_before (bc : Z) (ls : list str) (k : nat) :
  stops_with bc ls k → ∃ k', find_stop bc ls = Some k' ∧ (k' ≤ k)%nat.
Proof.
  intros Hk. destruct (find_stop bc ls) as [k'|] eqn:Hf.
  - exists k'. split; [done|]. apply find_stop_Some in Hf as [_ Hmin].
    destruct (decide (k' ≤ k)%nat); [done|]. exfalso. apply (Hmin k); [lia | done].
  - exfalso. by apply (proj1 (find_stop_None bc ls) Hf k).
Qed.

(** The balance after line [d + j] is the balance of the first [d] lines
    plus the balance after line [j] of what follows them. *)
Lemma balance_drop (ls : list str) (d j : nat) :
  balance ls (d + j) =
    foldr Z.add 0 (delta <$> take d ls) + balance (drop d ls) j.
Proof.
  unfold balance. replace (S (d + j)) with (d + S j)%nat by lia.
  rewrite <- take_take_drop, fmap_app, foldr_app.
  generalize (foldr Z.add 0 (delta <$> take (S j) (drop d ls))) as z.
  induction (delta <$> take d ls) as [|x l IH]; intros z; simpl; [lia|].
  rewrite IH. lia.
Qed.

Lemma lines_from_drop content (s t : Z) :
  1 ≤ s ≤ t →
  lines_from content t = drop (Z.to_nat (t - s)) (lines_from content s).
Proof.
  intros H. unfold lines_from. rewrite drop_drop. f_equal. lia.
Qed.

(** X4. For a start line of the file and the span [n] the function
    returns: on every line of the span before its last one the running
    balance is zero or more. The scan never goes on with more closing than
    opening braces behind it. *)
Theorem balance_nonneg_within_span (content : str) (start_line n : Z) (k : nat) :
  1 ≤ start_line ≤ len (str_split LF content) →
  count_function_lines content start_line = Ok n →
  Z.of_nat k < n - 1 →
  0 ≤ balance (lines_from content start_line) k.
Proof.
  intros Hrange Hn Hk. rewrite count_function_lines_find_stop in Hn by lia.
  injection Hn as Hn. rewrite <- (Z.add_0_l (balance _ _)).
  pose proof (lines_from_length content start_line ltac:(lia)) as Hlen.
  destruct (find_stop 0 (lines_from content start_line)) as [e|] eqn:He.
  - pose proof (find_stop_lt _ _ _ He) as Hlt.
    apply find_stop_Some in He as [_ Hmin].
    apply balance_nonneg_before_stop; [lia | lia |].
    intros k' Hk'. apply Hmin. lia.
  - apply balance_nonneg_before_stop; [lia | unfold len in *; lia |].
    intros k' _. by apply find_stop_None.
Qed.

(** X5. Spans nest. For two start lines of the file, the second inside
    the span measured from the first: the span measured from the second
    ends no later than the span measured from the first. *)
Theorem spans_nest (content : str) (s t n m : Z) :
  1 ≤ s ≤ t →
  t ≤ len (str_split LF content) →
  count_function_lines content s = Ok n →
  count_function_lines content t = Ok m →
  t < s + n →
  t + m ≤ s + n.
Proof.
  intros Hst Ht Hn Hm Hin.
  rewrite count_function_lines_find_stop in Hn by lia.
  rewrite count_function_lines_find_stop in Hm by lia.
  injection Hn as Hn. injection Hm as Hm.
  pose proof (lines_from_length content s ltac:(lia)) as Hls.
  pose proof (lines_from_length content t ltac:(lia)) as Hlt.
  rewrite (lines_from_drop content s t Hst) in Hm, Hlt.
  set (ls := lines_from content s) in *. set (d := Z.to_nat (t - s)) in *.
  destruct (find_stop 0 ls) as [e|] eqn:He.
  - assert (d ≤ e)%nat as Hde by lia.
    pose proof He as [Hstop Hmin]%find_stop_Some.
    assert (stops_with 0 (drop d ls) (e - d)) as Hstop'.
    { destruct Hstop as (line & Hline & Hbal & Hbr). exists line.
      split; [rewrite lookup_drop; by replace (d + (e - d))%nat with e by lia|].
      split; [|done].
      replace e with (d + (e - d))%nat in Hbal by lia.
      rewrite balance_drop in Hbal.
      assert (0 ≤ foldr Z.add 0 (delta <$> take d ls)); [|lia].
      destruct d as [|d'] eqn:Hd; [done|].
      change (foldr Z.add 0 (delta <$> take (S d') ls)) with (balance ls d').
      rewrite <- (Z.add_0_l (balance _ _)).
      apply balance_nonneg_before_stop; [lia | apply find_stop_lt in He; lia |].
      intros k' Hk'. apply Hmin. lia. }
    apply find_stop_before in Hstop' as (e' & He' & Hle).
    rewrite He' in Hm. lia.
  - destruct (find_stop 0 (drop d ls)) as [e'|] eqn:He'; [|lia].
    apply find_stop_lt in He'. unfold len in *. lia.
Qed.

Lemma str_split_app_sep sep (pre s : str) :
  str_split sep (pre ++ sep :: s) = str_split sep pre ++ str_split sep s.
Proof.
  induction pre as [|c pre IH]; simpl.
  - by rewrite N.eqb_refl.
  - rewrite IH. destruct (N.eqb c sep); [done|].
    pose proof (str_split_nonempty sep pre).
    by destruct (str_split sep pre).
Qed.

Lemma find_stop_app bc ls ls' k :
  find_stop bc ls = Some k → find_stop bc (ls ++ ls') = Some k.
Proof.
  revert bc k. induction ls as [|line ls IH]; intros bc k; simpl; [done|].
  destruct ((bc + delta line <=? 0) && str_contains RBRACE line); [done|].
  destruct (find_stop (bc + delta line) ls) as [j|] eqn:Hj; [|done].
  intros [= <-]. by rewrite (IH _ _ Hj).
Qed.

(** X6. What stands above a function does not change its measure: with
    whole lines [pre] put in front of the file, the span measured from the
    same line, now further down by the number of lines of [pre], is the
    same. *)
Theorem count_function_lines_shift (pre content : str) (start_line : Z) :
  1 ≤ start_line ≤ len (str_split LF content) →
  count_function_lines (pre ++ LF :: content) (len (str_split LF pre) + start_line) =
    count_function_lines content start_line.
Proof.
  intros H.
  assert (lines_from (pre ++ LF :: content) (len (str_split LF pre) + start_line)
          = lines_from content start_line) as Heq.
  { unfold lines_from. rewrite str_split_app_sep.
    replace (Z.to_nat (len (str_split LF pre) + start_line - 1))
      with (length (str_split LF pre) + Z.to_nat (start_line - 1))%nat
      by (unfold len; lia).
    rewrite <- drop_drop, drop_app_length. done. }
  rewrite !count_function_lines_find_stop.
  - by rewrite Heq.
  - lia.
  - rewrite str_split_app_sep. unfold len in *. rewrite length_app. lia.
Qed.

(** X7. Once the scan from a start line of the file stops at some line,
    what follows that line does not matter: lines added at the end of the
    file leave the span as it is. *)
Theorem count_function_lines_tail (content post : str) (start_line : Z) (k : nat) :
  1 ≤ start_line ≤ len (str_split LF content) →
  stops (lines_from content start_line) k →
  count_function_lines (content ++ LF :: post) start_line =
    count_function_lines content start_line.
Proof.
  intros H Hk.
  apply stops_with_0, find_stop_before in Hk as (e & He & _).
  assert (lines_from (content ++ LF :: post) start_line
          = lines_from content start_line ++ str_split LF post) as Heq.
  { unfold lines_from. rewrite str_split_app_sep, drop_app_le; [done|].
    unfold len in *. lia. }
  rewrite !count_function_lines_find_stop.
  - by rewrite Heq, (find_stop_app _ _ _ _ He), He.
  - lia.
  - rewrite str_split_app_sep. unfold len in *. rewrite length_app. lia.
Qed.

(** ** Further properties of find_functions *)

(** Where a candidate comes from. *)
Lemma candidates_origin content (r : report) :
  r ∈ candidates content →
  ∃ (k : nat) line p m n,
    str_split LF content !! k = Some line ∧
    first_match line = Some (p, m) ∧
    count_function_lines content (Z.of_nat k + 1) = Ok n ∧
    1 ≤ n ≤ len (str_split LF content) - (Z.of_nat k + 1) + 1 ∧
    r = (Z.of_nat k + 1, func_name_of m, n).
Proof.
  intros (k & line & Hk & Hc)%candidates_from_elem.
  unfold candidate_at in Hc. destruct (first_match line) as [[p m]|] eqn:Hm; [|done].
  simpl in Hc. rewrite (Z.add_comm 1) in Hc.
  pose proof (lookup_lt_Some _ _ _ Hk) as Hlt.
  destruct (count_function_lines_bounds content (Z.of_nat k + 1)) as (n & Hn & Hb).
  { unfold len. lia. }
  rewrite Hn in Hc. injection Hc as <-.
  exists k, line, p, m, n. done.
Qed.

(** X8. The only way [find_functions] fails is the read: it raises what
    opening or decoding the file raised and nothing else, and on a file it
    can read it returns a list. The line numbers it hands to
    [count_function_lines] never make that raise. *)
Theorem find_functions_raises (max_lines : Z) (fs : filesystem) (file_path : path) :
  (∀ e, find_functions max_lines fs file_path = Raise e ↔
        fs_read fs file_path = Raise e) ∧
  (∀ content, fs_read fs file_path = Ok content →
     ∃ vs, find_functions max_lines fs file_path = Ok vs).
Proof.
  unfold find_functions. destruct (fs_read fs file_path) as [content|e0]; simpl.
  - rewrite find_in_content_candidates. split; [done|]. eauto.
  - split; [|done]. intros e. split; congruence.
Qed.

Lemma find_functions_read max_lines fs file_path content :
  fs_read fs file_path = Ok content →
  find_functions max_lines fs file_path =
    Ok (filter (exceeds max_lines) (candidates content)).
Proof.
  intros H. unfold find_functions. rewrite H. apply find_in_content_candidates.
Qed.

Lemma violation_bounds max_lines content (r : report) :
  r ∈ filter (exceeds max_lines) (candidates content) →
  1 ≤ report_line r ∧
  report_line r + max_lines ≤ len (str_split LF content) ∧
  max_lines < report_lines r ≤ len (str_split LF content) - report_line r + 1 ∧
  count_function_lines content (report_line r) = Ok (report_lines r).
Proof.
  intros [Hex Hin]%list_elem_of_filter.
  apply candidates_origin in Hin as (k & line & p & m & n & _ & _ & Hn & Hb & ->).
  unfold exceeds, report_line, report_lines in *. simpl in *.
  repeat split; try done; lia.
Qed.

(** X9. Every entry [(i, name, n)] that [find_functions] returns for a
    file it read: [i] is at least 1 and at most the number of lines minus
    the threshold, [n] is what [count_function_lines] gives for line [i],
    more than the threshold and no more than the lines from [i] to the end
    of the file. *)
Theorem find_functions_entry_bounds (max_lines : Z) (fs : filesystem)
    (file_path : path) (content : str) (vs : list report) (i n : Z) (name : option str) :
  fs_read fs file_path = Ok content →
  find_functions max_lines fs file_path = Ok vs →
  (i, name, n) ∈ vs →
  1 ≤ i ≤ len (str_split LF content) - max_lines ∧
  max_lines < n ≤ len (str_split LF content) - i + 1 ∧
  count_function_lines content i = Ok n.
Proof.
  intros Hread Hvs Hin. rewrite (find_functions_read _ _ _ _ Hread) in Hvs.
  injection Hvs as <-. apply violation_bounds in Hin.
  unfold report_line, report_lines in Hin. simpl in Hin.
  destruct Hin as (? & ? & ? & ?). repeat split; try done; lia.
Qed.

(** X10. A file with no more lines than the threshold has no violation,
    whatever stands in it. *)
Theorem find_functions_short_file (max_lines : Z) (fs : filesystem)
    (file_path : path) (content : str) :
  fs_read fs file_path = Ok content →
  len (str_split LF content) ≤ max_lines →
  find_functions max_lines fs file_path = Ok [].
Proof.
  intros Hread Hlen. rewrite (find_functions_read _ _ _ _ Hread). f_equal.
  apply elem_of_nil_inv. intros r Hr%violation_bounds. lia.
Qed.

(** X11. A file none of whose lines is matched by any of the patterns has
    no violation, however long it is and whatever its braces. *)
Theorem find_functions_no_match (max_lines : Z) (fs : filesystem)
    (file_path : path) (content : str) :
  fs_read fs file_path = Ok content →
  (∀ line p, line ∈ str_split LF content → p ∈ patterns → re_search p line = None) →
  find_functions max_lines fs file_path = Ok [].
Proof.
  intros Hread Hno. rewrite (find_functions_read _ _ _ _ Hread). f_equal.
  apply elem_of_nil_inv. intros r [_ Hr]%list_elem_of_filter.
  apply candidates_origin in Hr as (k & line & p & m & n & Hk & Hm & _).
  apply first_match_pattern in Hm as [Hp Hs].
  rewrite Hno in Hs; [done | | done]. by apply list_elem_of_lookup_2 in Hk.
Qed.

(** X12. Raising the threshold never adds a violation: what
    [find_functions] returns under the larger threshold is what it returns
    under the smaller one with some entries left out, in the same order,
    namely the entries with a span above the larger threshold. *)
Theorem find_functions_threshold_mono (max1 max2 : Z) (fs : filesystem)
    (file_path : path) (vs1 vs2 : list report) :
  max1 ≤ max2 →
  find_functions max1 fs file_path = Ok vs1 →
  find_functions max2 fs file_path = Ok vs2 →
  vs2 = filter (exceeds max2) vs1 ∧ vs2 `sublist_of` vs1.
Proof.
  intros Hle H1 H2. unfold find_functions in *.
  destruct (fs_read fs file_path) as [content|e]; [|done]. simpl in *.
  rewrite find_in_content_candidates in H1, H2.
  injection H1 as <-. injection H2 as <-.
  assert (filter (exceeds max2) (candidates content) =
          filter (exceeds max2) (filter (exceeds max1) (candidates content))) as Heq.
  { symmetry. apply list_filter_filter_l. intros r. unfold exceeds. lia. }
  split; [done|]. rewrite Heq. apply sublist_filter.
Qed.

(** ** Further properties of the patterns *)

(** What a run of the matcher has consumed stands in front of what is left,
    and holds a word character when the pattern needs one. *)
Lemma rmatch_consumed r : ∀ st st',
  st' ∈ rmatch r st →
  ∃ consumed,
    ms_rest st = consumed ++ ms_rest st' ∧
    (needs_word r = true → Exists (fun c => cset_mem CWord c = true) consumed).
Proof.
  assert (∀ k st, ms_rest st = take k (ms_rest st) ++ ms_rest (ms_advance k st)) as Hadv.
  { intros k st. simpl. by rewrite take_drop. }
  induction r as [|s|cs|cs|cs|r IH|r1 IH1 r2 IH2|r1 IH1 r2 IH2|n r IH];
    intros st st'; simpl.
  - destruct (Nat.eqb (ms_pos st) 0); [|by intros ?%elem_of_nil].
    intros ->%list_elem_of_singleton. by exists [].
  - destruct (str_prefix s (ms_rest st)) eqn:Hp; [|by intros ?%elem_of_nil].
    intros ->%list_elem_of_singleton. exists s.
    assert (∀ t, str_prefix s t = true → t = s ++ drop (length s) t) as Hpre.
    { clear. induction s as [|x s IH]; intros [|y t]; simpl; try done.
      intros [->%N.eqb_eq H]%andb_true_iff. f_equal. by apply IH. }
    split; [by apply Hpre|].
    intros (c & Hc & Hw)%existsb_exists. apply Exists_exists.
    exists c. split; [by apply list_elem_of_In | done].
  - destruct (ms_rest st) as [|x t] eqn:Hrest; [by intros ?%elem_of_nil|].
    destruct (cset_mem cs x) eqn:Hx; [|by intros ?%elem_of_nil].
    intros ->%list_elem_of_singleton. exists [x]. simpl. rewrite Hrest. split; [done|].
    destruct cs; try done. intros _. by constructor.
  - intros (k & -> & _)%list_elem_of_fmap. exists (take k (ms_rest st)).
    split; [apply Hadv | done].
  - intros (k & -> & Hk)%list_elem_of_fmap. exists (take k (ms_rest st)).
    split; [apply Hadv|].
    unfold plus_lengths in Hk. destruct (ms_rest st) as [|x t]; [by apply elem_of_nil in Hk|].
    destruct (cset_mem cs x) eqn:Hx; [|by apply elem_of_nil in Hk].
    apply list_elem_of_fmap in Hk as (k' & -> & _).
    destruct cs; try done. intros _. simpl. by constructor.
  - rewrite elem_of_app, list_elem_of_singleton. intros [H | ->].
    + destruct (IH _ _ H) as (c & Hc & _). by exists c.
    + by exists [].
  - rewrite elem_of_app. intros [H | H].
    + destruct (IH1 _ _ H) as (c & Hc & Hw). exists c. split; [done|].
      intros [? _]%andb_true_iff. auto.
    + destruct (IH2 _ _ H) as (c & Hc & Hw). exists c. split; [done|].
      intros [_ ?]%andb_true_iff. auto.
  - intros (st1 & H2 & H1)%list_elem_of_bind.
    destruct (IH1 _ _ H1) as (c1 & Hc1 & Hw1). destruct (IH2 _ _ H2) as (c2 & Hc2 & Hw2).
    exists (c1 ++ c2). split; [by rewrite Hc1, Hc2, app_assoc|].
    rewrite orb_true_iff, Exists_app. intros [?|?]; auto.
  - intros (st1 & -> & H)%list_elem_of_fmap.
    destruct (IH _ _ H) as (c & Hc & Hw). by exists c.
Qed.

Lemma search_from_no_word r line : ∀ rest pos,
  needs_word r = true →
  Forall (fun c => cset_mem CWord c = false) rest →
  search_from r line pos rest = None.
Proof.
  assert (∀ rest pos, needs_word r = true →
    Forall (fun c => cset_mem CWord c = false) rest →
    head (rmatch r (ms_init pos rest)) = None) as Hhead.
  { intros rest pos Hr Hall.
    destruct (head (rmatch r (ms_init pos rest))) as [st|] eqn:Hh; [|done].
    apply head_Some_elem_of, rmatch_consumed in Hh as (c & Hc & Hw).
    simpl in Hc. apply Hw, Exists_exists in Hr as (x & Hx & Hword).
    rewrite Forall_forall in Hall. rewrite Hall in Hword; [done|].
    rewrite Hc. apply elem_of_app. by left. }
  induction rest as [|x rest IH]; intros pos Hr Hall; simpl.
  - by rewrite Hhead.
  - rewrite Hhead by done. apply IH; [done|]. by apply Forall_cons in Hall as [_ ?].
Qed.

Lemma patterns_need_word : Forall (fun p => needs_word p = true) patterns.
Proof. repeat constructor. Qed.

(** X13. A line without a single word character (a blank line, a line of
    braces and punctuation) is matched by none of the patterns and so is
    never a candidate. *)
Theorem no_word_no_candidate (line : str) :
  Forall (fun c => cset_mem CWord c = false) line →
  (∀ p, p ∈ patterns → re_search p line = None) ∧
  first_match line = None ∧
  (∀ content i, candidate_at content i line = None).
Proof.
  intros Hall.
  assert (∀ p, p ∈ patterns → re_search p line = None) as Hno.
  { intros p Hp. apply search_from_no_word; [|done].
    pose proof patterns_need_word as H. rewrite Forall_forall in H. by apply H. }
  assert (first_match line = None) as Hfm.
  { apply first_match_in_None, Forall_forall. exact Hno. }
  split; [done|]. split; [done|].
  intros content i. unfold candidate_at. by rewrite Hfm.
Qed.

Lemma search_from_anchored r line : ∀ rest pos,
  anchored r = true → pos ≠ O → search_from r line pos rest = None.
Proof.
  assert (∀ rest pos, anchored r = true → pos ≠ O → rmatch r (ms_init pos rest) = [])
    as Hnil.
  { intros rest pos Hr Hpos. destruct r as [| | | | | | |r1 r2|]; try done.
    destruct r1; try done. simpl. by destruct pos. }
  induction rest as [|x rest IH]; intros pos Hr Hpos; simpl.
  - by rewrite Hnil.
  - rewrite Hnil by done. simpl. by apply IH.
Qed.

Lemma patterns_anchored : Forall (fun p => anchored p = true) patterns.
Proof. repeat constructor. Qed.

(** X14. The patterns only match from the first character of the line:
    what [re.search] returns for one of them is the first way the pattern
    matches at position 0, and nothing when it does not match there. A
    declaration further along a line is not looked for. *)
Theorem patterns_match_at_start (pattern : regex) (line : str) :
  pattern ∈ patterns →
  re_search pattern line = match_of line <$> head (rmatch pattern (ms_init 0 line)) ∧
  (∀ pos rest, pos ≠ O → rmatch pattern (ms_init pos rest) = []).
Proof.
  intros Hp. pose proof patterns_anchored as Ha. rewrite Forall_forall in Ha.
  specialize (Ha _ Hp). split.
  - unfold re_search. destruct line as [|x line]; simpl.
    + by destruct (head (rmatch pattern (ms_init 0 []))).
    + destruct (head (rmatch pattern (ms_init 0 (x :: line)))); [done|].
      simpl. by apply search_from_anchored.
  - intros pos rest Hpos. destruct pattern as [| | | | | | |r1 r2|]; try done.
    destruct r1; try done. simpl. by destruct pos.
Qed.

(** A pattern that takes a character moves the position forward. *)
Lemma rmatch_consumes r : ∀ st st',
  st' ∈ rmatch r st → consumes r = true → (ms_pos st < ms_pos st')%nat.
Proof.
  induction r as [|s|cs|cs|cs|r IH|r1 IH1 r2 IH2|r1 IH1 r2 IH2|n r IH];
    intros st st'; simpl; try done.
  - destruct (str_prefix s (ms_rest st)); [|by intros ?%elem_of_nil].
    intros ->%list_elem_of_singleton. destruct s; [done|]. simpl. lia.
  - destruct (ms_rest st) as [|x t]; [by intros ?%elem_of_nil|].
    destruct (cset_mem cs x); [|by intros ?%elem_of_nil].
    intros ->%list_elem_of_singleton. simpl. lia.
  - intros (k & -> & Hk)%list_elem_of_fmap _.
    unfold plus_lengths in Hk. destruct (ms_rest st) as [|x t]; [by apply elem_of_nil in Hk|].
    destruct (cset_mem cs x); [|by apply elem_of_nil in Hk].
    apply list_elem_of_fmap in Hk as (k' & -> & _). simpl. lia.
  - rewrite elem_of_app, andb_true_iff. intros [H | H] [? ?]; [by apply IH1 | by apply IH2].
  - intros (st1 & H2 & H1)%list_elem_of_bind [Hc|Hc]%orb_true_iff.
    + apply IH1 in H1; [|done]. apply rmatch_pos in H2. lia.
    + apply IH2 in H2; [|done]. apply rmatch_pos in H1. lia.
  - intros (st1 & -> & H)%list_elem_of_fmap Hc. simpl. by apply IH.
Qed.

(** The groups recorded so far are not empty, as long as every group of
    the pattern takes a character. *)
Lemma rmatch_groups_nonempty r : ∀ st st',
  st' ∈ rmatch r st →
  groups_consume r = true →
  (∀ n a b, ms_groups st !! n = Some (a, b) → (a < b)%nat) →
  (∀ n a b, ms_groups st' !! n = Some (a, b) → (a < b)%nat).
Proof.
  induction r as [|s|cs|cs|cs|r IH|r1 IH1 r2 IH2|r1 IH1 r2 IH2|n r IH];
    intros st st'; simpl.
  - destruct (Nat.eqb (ms_pos st) 0); [|by intros ?%elem_of_nil].
    by intros ->%list_elem_of_singleton.
  - destruct (str_prefix s (ms_rest st)); [|by intros ?%elem_of_nil].
    by intros ->%list_elem_of_singleton.
  - destruct (ms_rest st) as [|x t]; [by intros ?%elem_of_nil|].
    destruct (cset_mem cs x); [|by intros ?%elem_of_nil].
    by intros ->%list_elem_of_singleton.
  - by intros (k & -> & _)%list_elem_of_fmap.
  - by intros (k & -> & _)%list_elem_of_fmap.
  - rewrite elem_of_app, list_elem_of_singleton. intros [H | ->]; [by apply IH | done].
  - rewrite elem_of_app, andb_true_iff. intros [H | H] [? ?]; [by apply IH1 | by apply IH2].
  - intros (st1 & H2 & H1)%list_elem_of_bind [? ?]%andb_true_iff Hst.
    apply (IH2 st1); [done | done |]. by apply (IH1 st).
  - intros (st1 & -> & H)%list_elem_of_fmap [Hc Hg]%andb_true_iff Hst n' a b. simpl.
    rewrite lookup_insert. case_decide.
    + intros [= <- <-]. by apply rmatch_consumes in H.
    + by apply (IH st st1).
Qed.

Lemma patterns_groups_consume : Forall (fun p => groups_consume p = true) patterns.
Proof. repeat constructor. Qed.

Lemma str_slice_length (s : str) (a b : nat) :
  (a ≤ b ≤ length s)%nat → length (str_slice s a b) = (b - a)%nat.
Proof. intros H. unfold str_slice. rewrite length_take, length_drop. lia. Qed.

(** The name of a match of one of the patterns is a piece of the line at
    least one character long. *)
Lemma search_pattern_name (pattern : regex) (line : str) (m : Match) :
  pattern ∈ patterns →
  re_search pattern line = Some m →
  ∃ (a b : nat),
    (a < b ≤ length line)%nat ∧ func_name_of m = Some (str_slice line a b).
Proof.
  intros Hp Hm.
  destruct (search_pattern_group _ _ _ Hp Hm) as (g & a & b & _ & _ & _ & Hg & Hle & _ & Hn).
  exists a, b. split; [|done]. split; [|lia].
  apply search_from_inv in Hm as (pos & rest & st & _ & Hin & ->). simpl in Hg.
  pose proof patterns_groups_consume as Hc. rewrite Forall_forall in Hc.
  apply (rmatch_groups_nonempty _ _ _ Hin (Hc _ Hp)) with (n := g); [|done].
  intros n a' b'. simpl. by rewrite lookup_empty.
Qed.

(** X15. Every name [find_functions] reports is a string, never [None],
    is not empty, and is a run of consecutive characters of the line it was
    found on. *)
Theorem find_functions_names (max_lines : Z) (fs : filesystem) (file_path : path)
    (content : str) (vs : list report) (i n : Z) (name : option str) :
  fs_read fs file_path = Ok content →
  find_functions max_lines fs file_path = Ok vs →
  (i, name, n) ∈ vs →
  ∃ line (a b : nat),
    str_split LF content !! Z.to_nat (i - 1) = Some line ∧
    (a < b ≤ length line)%nat ∧
    name = Some (str_slice line a b) ∧
    str_slice line a b ≠ [].
Proof.
  intros Hread Hvs Hin. rewrite (find_functions_read _ _ _ _ Hread) in Hvs.
  injection Hvs as <-. apply list_elem_of_filter in Hin as [_ Hin].
  apply candidates_origin in Hin as (k & line & p & m & n' & Hk & Hm & _ & _ & Heq).
  injection Heq as -> -> ->.
  apply first_match_pattern in Hm as [Hp Hs].
  destruct (search_pattern_name _ _ _ Hp Hs) as (a & b & Hab & Hname).
  exists line, a, b. replace (Z.to_nat (Z.of_nat k + 1 - 1)) with k by lia.
  repeat split; try done; try lia.
  intros Hnil. apply (f_equal length) in Hnil.
  rewrite str_slice_length in Hnil by lia. simpl in Hnil. lia.
Qed.

(** X16. A span of 1 from a start line of the file means one of two
    things, and either gives it: the start line holds a closing brace and
    no more opening than closing braces, or it is the last line of the
    file. *)
Theorem count_function_lines_one (content : str) (start_line : Z) (line : str) :
  1 ≤ start_line ≤ len (str_split LF content) →
  str_split LF content !! Z.to_nat (start_line - 1) = Some line →
  (count_function_lines content start_line = Ok 1 ↔
     (RBRACE ∈ line ∧ str_count LBRACE line ≤ str_count RBRACE line) ∨
     start_line = len (str_split LF content)).
Proof.
  intros Hrange Hline.
  pose proof (lines_from_length content start_line ltac:(lia)) as Hlen.
  rewrite count_function_lines_find_stop by lia.
  assert (∃ ls, lines_from content start_line = line :: ls) as [ls Hls].
  { unfold lines_from. rewrite (drop_S _ _ _ Hline). eauto. }
  rewrite Hls in *. cbn [find_stop]. rewrite Z.add_0_l.
  assert ((delta line <=? 0) && str_contains RBRACE line = true ↔
          RBRACE ∈ line ∧ str_count LBRACE line ≤ str_count RBRACE line) as Htest.
  { rewrite andb_true_iff, Z.leb_le, str_contains_elem_of. unfold delta.
    split; intros [? ?]; split; try done; lia. }
  destruct ((delta line <=? 0) && str_contains RBRACE line).
  - split; [|done]. intros _. left. by apply Htest.
  - assert (¬ (RBRACE ∈ line ∧ str_count LBRACE line ≤ str_count RBRACE line)) as Hno.
    { intros H. by apply Htest in H. }
    unfold len in Hlen. cbn [length] in Hlen.
    destruct (find_stop (delta line) ls) as [k|] eqn:Hk;
      cbn [fmap option_fmap option_map].
    + apply find_stop_lt in Hk. split.
      * intros H. assert (Z.of_nat (S k) + 1 = 1) by congruence. lia.
      * intros [?|?]; [done|]. unfold len in *. lia.
    + split.
      * intros H. assert (len (line :: ls) = 1) as H1 by congruence.
        right. unfold len in *. cbn [length] in H1. lia.
      * intros [?|?]; [done|]. f_equal. unfold len in *. cbn [length]. lia.
Qed.

(** ** Further properties of the run *)

Lemma file_prints_reports max_lines fs files :
  omap violation_of (file_prints max_lines fs files).1 =
    match (file_prints max_lines fs files).2 with
    | Ok _ => files ≫= file_reports max_lines fs
    | Raise _ => omap violation_of (file_prints max_lines fs files).1
    end ∧
  (Forall (readable fs) files →
     omap violation_of (file_prints max_lines fs files).1 =
       files ≫= file_reports max_lines fs).
Proof.
  assert (∀ f vs, omap violation_of (error_lines max_lines f vs) = pair f <$> vs) as Herr.
  { intros f vs. unfold error_lines. induction vs as [|[[i name] n] vs IH]; [done|].
    rewrite !fmap_cons. cbn [omap list_omap violation_of fst snd]. f_equal. exact IH. }
  assert (Forall (readable fs) files →
     omap violation_of (file_prints max_lines fs files).1 =
       files ≫= file_reports max_lines fs) as Hall.
  { induction files as [|f files IH]; [done|].
    intros [Hf Hfiles]%Forall_cons. apply (find_functions_Ok max_lines) in Hf as [vs Hvs].
    simpl. unfold file_reports at 1. rewrite Hvs. simpl.
    by rewrite omap_app, Herr, IH. }
  split; [|done].
  destruct (file_prints max_lines fs files).2 as [[]|e] eqn:Hres; [|done].
  apply Hall. by apply (file_prints_Ok max_lines).
Qed.

Lemma script_prints fs :
  script fs =
    if negb (fs_exists fs)
    then (World [PHeader MAX_LINES; PBlank; PNoSrc] 0, SystemExit 1)
    else
      let prints := (file_prints MAX_LINES fs (fs_rglob fs)).1 in
      let code := raised_code prints 0 in
      match (file_prints MAX_LINES fs (fs_rglob fs)).2 with
      | Raise e => (World ([PHeader MAX_LINES; PBlank] ++ prints) code, Uncaught e)
      | Ok _ =>
          (World ([PHeader MAX_LINES; PBlank] ++ prints ++
                    (if code =? 0 then [PAllWithin MAX_LINES]
                     else [PBlank; PRefactor MAX_LINES])) code,
           SystemExit code)
      end.
Proof. unfold script, main. by rewrite main_with_prints. Qed.

Lemma file_prints_only_errors max_lines fs files p :
  p ∈ (file_prints max_lines fs files).1 → is_Some (violation_of p).
Proof.
  pose proof (file_prints_errors max_lines fs files) as H.
  rewrite Forall_forall in H. apply H.
Qed.

(** X17. The summary agrees with the exit status. The line saying all
    functions are within the limit is printed exactly when the run ends
    with [sys.exit(0)]; the line asking to refactor exactly when [src]
    exists and the run ends with [sys.exit(1)]; the error about the missing
    directory exactly when [src] does not exist. *)
Theorem script_summary (fs : filesystem) :
  (PAllWithin MAX_LINES ∈ stdout (script fs).1 ↔ (script fs).2 = SystemExit 0) ∧
  (PRefactor MAX_LINES ∈ stdout (script fs).1 ↔
     fs_exists fs = true ∧ (script fs).2 = SystemExit 1) ∧
  (PNoSrc ∈ stdout (script fs).1 ↔ fs_exists fs = false).
Proof.
  rewrite script_prints. cbv zeta.
  destruct (fs_exists fs); simpl negb; cbv iota.
  2:{ cbn [fst snd stdout]. rewrite !elem_of_cons, !elem_of_nil. intuition congruence. }
  set (prints := (file_prints MAX_LINES fs (fs_rglob fs)).1).
  assert (∀ p, violation_of p = None → p ∉ prints) as Hnot.
  { intros p Hp Hin. apply file_prints_only_errors in Hin as [? ?]. congruence. }
  pose proof (Hnot (PAllWithin MAX_LINES) eq_refl) as H1.
  pose proof (Hnot (PRefactor MAX_LINES) eq_refl) as H2.
  pose proof (Hnot PNoSrc eq_refl) as H3.
  pose proof (raised_code_cases prints) as Hcases.
  destruct (file_prints MAX_LINES fs (fs_rglob fs)).2 as [[]|e]; cbn [fst snd stdout].
  - destruct Hcases as [-> | ->]; simpl Z.eqb; cbv iota;
      rewrite !elem_of_app, !elem_of_cons, !elem_of_nil; intuition congruence.
  - rewrite !elem_of_app, !elem_of_cons, !elem_of_nil. intuition congruence.
Qed.

(** X18. When [src] exists and every file can be read, the violations the
    run prints are those [find_functions] returns for each file, file
    after file in the order of the walk, and within a file in the order
    [find_functions] returns them. *)
Theorem script_reports (fs : filesystem) :
  fs_exists fs = true →
  Forall (readable fs) (fs_rglob fs) →
  violations (script fs).1 = fs_rglob fs ≫= file_reports MAX_LINES fs.
Proof.
  intros Hex Hall. rewrite script_prints, Hex. cbv zeta. simpl negb. cbv iota.
  pose proof (file_prints_errors MAX_LINES fs (fs_rglob fs)) as Herr.
  pose proof (proj2 (file_prints_reports MAX_LINES fs (fs_rglob fs)) Hall) as Hrep.
  apply (file_prints_Ok MAX_LINES) in Hall. rewrite Hall. cbn [fst].
  set (prints := (file_prints MAX_LINES fs (fs_rglob fs)).1) in *.
  assert (Forall (fun p => violation_of p = None)
    (if raised_code prints 0 =? 0 then [PAllWithin MAX_LINES]
     else [PBlank; PRefactor MAX_LINES])) as Htail.
  { destruct (raised_code prints 0 =? 0); repeat constructor. }
  destruct (violations_of_run prints _ (raised_code prints 0) Herr Htail) as [Hv _].
  by rewrite Hv.
Qed.

(** X19. The first file that cannot be read ends the run: the exception
    goes uncaught, the files before it are reported in full, no file after
    it is looked at and no summary is printed. *)
Theorem script_aborts_at_unreadable (fs : filesystem) (before after : list path)
    (bad : path) (e : exn) :
  fs_exists fs = true →
  fs_rglob fs = before ++ bad :: after →
  Forall (readable fs) before →
  fs_read fs bad = Raise e →
  (script fs).2 = Uncaught e ∧
  violations (script fs).1 = before ≫= file_reports MAX_LINES fs ∧
  stdout (script fs).1 =
    [PHeader MAX_LINES; PBlank] ++ (file_prints MAX_LINES fs before).1.
Proof.
  intros Hex Hglob Hbefore Hbad. rewrite script_prints, Hex, Hglob.
  cbv zeta. simpl negb. cbv iota.
  assert (file_prints MAX_LINES fs (before ++ bad :: after) =
          ((file_prints MAX_LINES fs before).1, Raise e)) as ->.
  { clear Hglob. induction before as [|f before IH]; simpl.
    - unfold find_functions. rewrite Hbad. done.
    - apply Forall_cons in Hbefore as [Hf Hbefore].
      apply (find_functions_Ok MAX_LINES) in Hf as [vs ->].
      rewrite (IH Hbefore). done. }
  cbn [fst snd]. split; [done|]. split; [|done].
  pose proof (file_prints_errors MAX_LINES fs before) as Herr.
  destruct (violations_of_run (file_prints MAX_LINES fs before).1 []
              (raised_code (file_prints MAX_LINES fs before).1 0) Herr) as [Hv _];
    [constructor|].
  rewrite app_nil_r in Hv. rewrite Hv.
  by apply file_prints_reports.
Qed.

(** The exit status, file by file. *)
Lemma script_status_files (fs : filesystem) :
  exit_status (script fs).2 = 0 ↔
    fs_exists fs = true ∧
    Forall (fun f => find_functions MAX_LINES fs f = Ok []) (fs_rglob fs).
Proof.
  rewrite script_prints. cbv zeta.
  destruct (fs_exists fs); simpl negb; cbv iota; [|simpl; split; [done | by intros [? _]]].
  assert (∀ files,
    ((file_prints MAX_LINES fs files).2 = Ok tt ∧ (file_prints MAX_LINES fs files).1 = [])
    ↔ Forall (fun f => find_functions MAX_LINES fs f = Ok []) files) as Hfiles.
  { induction files as [|f files IH]; simpl; [by split|].
    rewrite Forall_cons, <- IH.
    destruct (find_functions MAX_LINES fs f) as [vs|e]; simpl.
    - unfold error_lines. destruct vs as [|v vs]; simpl.
      + split; [intros [? ?]|intros [_ [? ?]]]; done.
      + split; [intros [_ ?]|intros [? _]]; done.
    - split; [intros [? _]|intros [? _]]; done. }
  rewrite <- Hfiles.
  pose proof (raised_code_0 (file_prints MAX_LINES fs (fs_rglob fs)).1) as Hcode.
  destruct (file_prints MAX_LINES fs (fs_rglob fs)).2 as [[]|e]; cbn [snd exit_status].
  - rewrite Hcode. tauto.
  - split; [done|]. intros [_ [? _]]. done.
Qed.

(** X20. The run exits with status 0 exactly when [src] exists and
    [find_functions] returns the empty list for every file of the walk. *)
Theorem script_status_by_file (fs : filesystem) :
  exit_status (script fs).2 = 0 ↔
    fs_exists fs = true ∧
    ∀ f, f ∈ fs_rglob fs → find_functions MAX_LINES fs f = Ok [].
Proof. rewrite script_status_files, Forall_forall. done. Qed.

(** X21. The order in which the walk yields the files does not change the
    exit status: two directories that differ only in that order give the
    same status. *)
Theorem script_status_order (fs fs' : filesystem) :
  fs_exists fs' = fs_exists fs →
  (∀ p, fs_read fs' p = fs_read fs p) →
  fs_rglob fs' ≡ₚ fs_rglob fs →
  exit_status (script fs').2 = exit_status (script fs).2.
Proof.
  intros Hex Hread Hperm.
  assert (∀ g, exit_status (script g).2 = 0 ∨ exit_status (script g).2 = 1) as Hcases.
  { intros g. rewrite script_prints. cbv zeta.
    destruct (fs_exists g); simpl; [|by right].
    destruct (file_prints MAX_LINES g (fs_rglob g)).2; simpl; [|by right].
    apply raised_code_cases. }
  assert (exit_status (script fs').2 = 0 ↔ exit_status (script fs).2 = 0) as Hiff.
  { rewrite !script_status_files, Hex, Hperm.
    assert (∀ f, find_functions MAX_LINES fs' f = find_functions MAX_LINES fs f) as Hff.
    { intros f. unfold find_functions. by rewrite Hread. }
    rewrite !Forall_forall. setoid_rewrite Hff. done. }
  destruct (Hcases fs'), (Hcases fs); lia.
Qed.

(** X22. [main] never sets [EXIT_CODE] back to 0. Entered with a value
    other than 0, over a directory that exists, can be read and holds no
    violation, it still exits with that value and prints the request to
    refactor, not the line saying all is within the limit. *)
Theorem main_keeps_exit_code (fs : filesystem) (out : list printed) (code : Z) :
  code ≠ 0 →
  fs_exists fs = true →
  (∀ f, f ∈ fs_rglob fs → find_functions MAX_LINES fs f = Ok []) →
  main fs (World out code) =
    (World (out ++ [PHeader MAX_LINES; PBlank; PBlank; PRefactor MAX_LINES]) code,
     SystemExit code).
Proof.
  intros Hcode Hex Hall. unfold main. rewrite main_with_prints, Hex.
  cbv zeta. simpl negb. cbv iota.
  assert (file_prints MAX_LINES fs (fs_rglob fs) = ([], Ok tt)) as ->.
  { induction (fs_rglob fs) as [|f files IH]; [done|]. simpl.
    rewrite Hall by (apply elem_of_cons; auto). simpl.
    rewrite IH; [done|]. intros g Hg. apply Hall, elem_of_cons. auto. }
  cbn [fst snd raised_code].
  destruct (Z.eqb_spec code 0); [done|].
  by rewrite <- app_assoc.
Qed.

(** ** Lines that cannot start a declaration *)

Lemma rmatch_same_pos r st st' :
  st' ∈ rmatch r st → ms_pos st' = ms_pos st → ms_rest st' = ms_rest st.
Proof.
  intros Hin Hpos. pose proof (rmatch_pos _ _ _ Hin) as [_ Hlen].
  destruct (rmatch_consumed _ _ _ Hin) as (c & Hc & _).
  apply (f_equal length) in Hc as Hl. rewrite length_app in Hl.
  destruct c; [done | simpl in Hl; lia].
Qed.

Lemma rmatch_word_first r : ∀ st st',
  st' ∈ rmatch r st →
  word_first r = true →
  ms_pos st' = ms_pos st ∨
  ∃ x t, ms_rest st = x :: t ∧ cset_mem CWord x = true.
Proof.
  induction r as [|s|cs|cs|cs|r IH|r1 IH1 r2 IH2|r1 IH1 r2 IH2|n r IH];
    intros st st'; simpl.
  - destruct (Nat.eqb (ms_pos st) 0); [|by intros ?%elem_of_nil].
    intros ->%list_elem_of_singleton. by left.
  - destruct (str_prefix s (ms_rest st)) eqn:Hp; [|by intros ?%elem_of_nil].
    intros ->%list_elem_of_singleton. destruct s as [|c s]; [left; simpl; lia|].
    intros Hw. right. destruct (ms_rest st) as [|y t]; [done|].
    simpl in Hp. apply andb_true_iff in Hp as [->%N.eqb_eq _]. eauto.
  - destruct (ms_rest st) as [|x t]; [by intros ?%elem_of_nil|].
    destruct (cset_mem cs x) eqn:Hx; [|by intros ?%elem_of_nil].
    intros _ Hw. right. destruct cs; try done. eauto.
  - intros (k & -> & Hk)%list_elem_of_fmap Hw. destruct cs; try done.
    destruct (ms_rest st) as [|x t] eqn:Hrest.
    + apply list_elem_of_singleton in Hk as ->. left. simpl. lia.
    + simpl in Hk. destruct (isalnum x || (x =? UNDERSCORE)%N) eqn:Hx.
      * right. exists x, t. split; [done|]. exact Hx.
      * apply list_elem_of_singleton in Hk as ->. left. simpl. lia.
  - intros (k & -> & Hk)%list_elem_of_fmap Hw. destruct cs; try done.
    unfold plus_lengths in Hk. destruct (ms_rest st) as [|x t]; [by apply elem_of_nil in Hk|].
    destruct (cset_mem CWord x) eqn:Hx; [|by apply elem_of_nil in Hk].
    right. eauto.
  - rewrite elem_of_app, list_elem_of_singleton. intros [H | ->] Hw; [by apply IH | by left].
  - rewrite elem_of_app. intros [H | H] [? ?]%andb_true_iff; [by apply IH1 | by apply IH2].
  - intros (st1 & H2 & H1)%list_elem_of_bind [Hw1 Hw2]%andb_true_iff.
    destruct (IH1 _ _ H1 Hw1) as [Hpos|?]; [|by right].
    apply orb_true_iff in Hw2 as [Hc|Hw2].
    { apply rmatch_consumes in H1; [lia | done]. }
    destruct (IH2 _ _ H2 Hw2) as [Hpos2|(x & t & Hrest & Hx)].
    + left. lia.
    + right. exists x, t. split; [|done].
      by rewrite <- (rmatch_same_pos _ _ _ H1 Hpos).
  - intros (st1 & -> & H)%list_elem_of_fmap Hw. simpl. by apply IH.
Qed.

Lemma star_lengths_taken cs : ∀ s k,
  k ∈ star_lengths cs s → Forall (fun c => cset_mem cs c = true) (take k s).
Proof.
  induction s as [|x s IH]; intros k; simpl.
  - intros ->%list_elem_of_singleton. constructor.
  - destruct (cset_mem cs x) eqn:Hx.
    + rewrite elem_of_app, list_elem_of_fmap, list_elem_of_singleton.
      intros [(k' & -> & Hk') | ->]; [|constructor].
      simpl. constructor; [done | by apply IH].
    + intros ->%list_elem_of_singleton. constructor.
Qed.

Lemma patterns_after_blanks : Forall (fun p => after_blanks p = true) patterns.
Proof. repeat constructor. Qed.

Lemma after_blanks_no_match (p : regex) (blanks : str) (c : char) (rest : str) :
  after_blanks p = true →
  Forall (fun x => cset_mem CWord x = false) blanks →
  cset_mem CWord c = false →
  cset_mem CSpace c = false →
  rmatch p (ms_init 0 (blanks ++ c :: rest)) = [].
Proof.
  intros Hp Hblanks Hc Hsp. apply elem_of_nil_inv. intros st' Hin.
  destruct p as [| | | | | | |r0 p'|]; try done.
  destruct r0; try done. destruct p' as [| | | | | | |r1 r|]; try done.
  destruct r1 as [| | |cs| | | | |]; try done. destruct cs; try done.
  simpl in Hp. apply andb_true_iff in Hp as [Hw Hcons].
  cbn [rmatch] in Hin.
  apply list_elem_of_bind in Hin as (st0 & Hin & H0).
  simpl in H0. apply list_elem_of_singleton in H0 as ->.
  apply list_elem_of_bind in Hin as (st1 & Hin & H1).
  apply list_elem_of_fmap in H1 as (k & -> & Hk).
  apply star_lengths_taken in Hk. simpl in Hk.
  assert (k ≤ length blanks)%nat as Hle.
  { destruct (decide (k ≤ length blanks)%nat); [done|]. exfalso.
    rewrite Forall_forall in Hk.
    assert (cset_mem CSpace c = true) as Hsp'; [|congruence].
    apply Hk, list_elem_of_lookup. exists (length blanks).
    rewrite lookup_take_lt by lia. by rewrite list_lookup_middle. }
  pose proof (rmatch_consumes _ _ _ Hin Hcons) as Hlt.
  destruct (rmatch_word_first _ _ _ Hin Hw) as [Hpos | (x & t & Hrest & Hx)]; [lia|].
  simpl in Hrest. rewrite drop_app_le in Hrest by done.
  assert (x ∈ blanks ∨ x = c) as [Hxb | ->].
  { destruct (drop k blanks) as [|y b] eqn:Hd; simpl in Hrest.
    - right. congruence.
    - left. injection Hrest as <- _. apply (subseteq_drop k blanks). rewrite Hd.
      apply elem_of_cons. by left. }
  - rewrite Forall_forall in Hblanks. rewrite Hblanks in Hx; done.
  - congruence.
Qed.

(** X23. A line in which a character that is neither white space nor a
    word character comes before every word character (a comment sign, a
    closing brace, a decorator, an opening parenthesis, indented or not)
    is matched by none of the patterns and is never a candidate. *)
Theorem non_word_start_no_candidate (blanks : str) (c : char) (rest : str) :
  Forall (fun x => cset_mem CWord x = false) blanks →
  cset_mem CWord c = false →
  cset_mem CSpace c = false →
  (∀ p, p ∈ patterns → re_search p (blanks ++ c :: rest) = None) ∧
  first_match (blanks ++ c :: rest) = None.
Proof.
  intros Hblanks Hc Hsp.
  assert (∀ p, p ∈ patterns → re_search p (blanks ++ c :: rest) = None) as Hno.
  { intros p Hp.
    pose proof patterns_after_blanks as Hab. rewrite Forall_forall in Hab.
    pose proof patterns_anchored as Ha. rewrite Forall_forall in Ha.
    pose proof (after_blanks_no_match p blanks c rest (Hab _ Hp) Hblanks Hc Hsp) as Hnil.
    unfold re_search. destruct (blanks ++ c :: rest) as [|x l] eqn:Hl.
    - by destruct blanks.
    - simpl. rewrite Hnil. simpl. apply search_from_anchored; [by apply Ha | done]. }
  split; [done|]. apply first_match_in_None, Forall_forall. exact Hno.
Qed.

End Scanner.

(** ** The claims on sample inputs *)

Example sample_lines : len (str_split LF sample_content) = 4.
Proof. reflexivity. Qed.

Example sample_span : count_function_lines sample_content 1 = Ok 3.
Proof. reflexivity. Qed.

(** A negative start line indexes from the end of the file, and one too far
    back raises. *)
Example sample_span_wraps : count_function_lines sample_content 0 = Ok 4.
Proof. reflexivity. Qed.

Example sample_span_raises : count_function_lines sample_content (-4) = Raise IndexError.
Proof. reflexivity. Qed.

Example sample_matches :
  (fun o => (fun pm : regex * Match => func_name_of pm.2) <$> o)
    <$> (first_match ascii_only ascii_only <$> str_split LF sample_content)
  = [Some (Some (py "f")); None; None; None].
Proof. vm_compute. reflexivity. Qed.

(** The name is the text of the last group that took part: with
    [async] before [function] that is the fourth group of the second
    pattern. *)
Example sample_last_group :
  (fun pm : regex * Match => (m_lastindex pm.2, func_name_of pm.2))
    <$> first_match ascii_only ascii_only (py "foo : async function")
  = Some (Some 4%nat, Some (py "async ")).
Proof. vm_compute. reflexivity. Qed.

(** The first scenario of the specification: a function of a few lines. *)
Example scenario_short :
  script ascii_only ascii_only sample_fs =
    (World [PHeader 120; PBlank; PAllWithin 120] 0, SystemExit 0).
Proof. vm_compute. reflexivity. Qed.

(** The second: opening brace on line 10, closing brace on line 140. *)
Example scenario_long :
  script ascii_only ascii_only long_fs =
    (World [PHeader 120; PBlank;
            PError sample_path 10 (Some (py "long")) 131 120;
            PBlank; PRefactor 120] 1,
     SystemExit 1).
Proof. vm_compute. reflexivity. Qed.

Lemma sample_stops_at_2 : stops (lines_from sample_content 1) 2.
Proof.
  exists (py "}"). split; [reflexivity|]. split; [by vm_compute|].
  by apply str_contains_elem_of.
Qed.

Lemma sample_no_stop_before_2 (k' : nat) :
  (k' < 2)%nat → ¬ stops (lines_from sample_content 1) k'.
Proof.
  intros Hk (line & Hline & _ & Hin). apply str_contains_elem_of in Hin.
  destruct k' as [|[|k']]; [| |lia]; injection Hline as <-; by vm_compute in Hin.
Qed.

Lemma open_content_no_stop (k : nat) : ¬ stops (lines_from open_content 1) k.
Proof.
  intros (line & Hline & _ & Hin). apply str_contains_elem_of in Hin.
  destruct k as [|[|k]]; [| |done]; injection Hline as <-; by vm_compute in Hin.
Qed.

Lemma sample_range : 1 ≤ 1 ≤ len (str_split LF sample_content).
Proof. by vm_compute. Qed.

Lemma open_range : 1 ≤ 1 ≤ len (str_split LF open_content).
Proof. by vm_compute. Qed.

(** On the sample the function closes on its third line. *)
Lemma count_function_lines_first_stop_witness :
  1 ≤ 1 ≤ len (str_split LF sample_content) ∧
  stops (lines_from sample_content 1) 2 ∧
  count_function_lines sample_content 1 = Ok 3.
Proof.
  split; [exact sample_range|]. split; [exact sample_stops_at_2|].
  exact (proj1 (count_function_lines_first_stop sample_content 1 sample_range)
           2%nat sample_stops_at_2 sample_no_stop_before_2).
Defined.

(** A function left open runs to the end of the file. *)
Lemma count_function_lines_no_stop_witness :
  1 ≤ 1 ≤ len (str_split LF open_content) ∧
  count_function_lines open_content 1 = Ok 2.
Proof.
  split; [exact open_range|].
  exact (proj1 (count_function_lines_no_stop open_content 1 open_range
                  open_content_no_stop)).
Defined.

Lemma count_function_lines_ge_1_witness :
  1 ≤ 1 ≤ len (str_split LF sample_content) ∧
  ∃ n, count_function_lines sample_content 1 = Ok n ∧ 1 ≤ n.
Proof.
  split; [exact sample_range|].
  exact (count_function_lines_ge_1 sample_content 1 sample_range).
Defined.

Lemma count_function_lines_le_remaining_witness :
  1 ≤ 1 ≤ len (str_split LF sample_content) ∧
  ∃ n, count_function_lines sample_content 1 = Ok n ∧ n ≤ 4 - 1 + 1.
Proof.
  split; [exact sample_range|].
  exact (count_function_lines_le_remaining sample_content 1 sample_range).
Defined.

Lemma sample_first_match :
  ∃ p m, first_match ascii_only ascii_only (py "function f() {") = Some (p, m).
Proof. vm_compute. eauto. Qed.

Lemma sample_search :
  ∃ p m, p ∈ patterns ∧
    re_search ascii_only ascii_only p (py "function f() {") = Some m.
Proof.
  destruct sample_first_match as (p & m & H).
  exists p, m. by apply first_match_pattern in H.
Qed.

(** The sample spans 3 lines: a violation under threshold 2, none under 3. *)
Lemma find_functions_boundary_witness :
  (∃ vs, find_functions ascii_only ascii_only 2 sample_fs sample_path = Ok vs ∧
         filter (fun r => report_line r = 1) vs = [(1, Some (py "f"), 3)]) ∧
  (∃ vs, find_functions ascii_only ascii_only 3 sample_fs sample_path = Ok vs ∧
         filter (fun r => report_line r = 1) vs = []).
Proof.
  destruct sample_first_match as (p & m & Hm).
  assert (func_name_of m = Some (py "f")) as Hname.
  { vm_compute in Hm. injection Hm as _ <-. reflexivity. }
  split.
  - destruct (find_functions_boundary ascii_only ascii_only 2 sample_fs sample_path
                sample_content 0 (py "function f() {") p m
                ltac:(lia) eq_refl eq_refl Hm) as (vs & Hvs & _ & Hplus & _).
    exists vs. split; [exact Hvs|]. rewrite <- Hname. exact (Hplus eq_refl).
  - destruct (find_functions_boundary ascii_only ascii_only 3 sample_fs sample_path
                sample_content 0 (py "function f() {") p m
                ltac:(lia) eq_refl eq_refl Hm) as (vs & Hvs & Hsame & _).
    exists vs. split; [exact Hvs|]. exact (Hsame eq_refl).
Defined.

Lemma candidate_name_from_group_witness :
  ∃ name n,
    filter (fun r => report_line r = 1) (candidates ascii_only ascii_only sample_content)
      = [(1, name, n)] ∧
    name = Some (py "f").
Proof.
  destruct sample_first_match as (p & m & Hm).
  assert (func_name_of m = Some (py "f")) as Hname.
  { vm_compute in Hm. injection Hm as _ <-. reflexivity. }
  destruct (candidate_name_from_group ascii_only ascii_only sample_content 0
              (py "function f() {") p m eq_refl Hm)
    as (name & n & Hline & _ & Heq & _).
  exists name, n. split; [exact Hline|]. by rewrite Heq.
Defined.

Lemma lastindex_always_set_witness :
  ∃ p m (g a b : nat),
    p ∈ patterns ∧
    re_search ascii_only ascii_only p (py "function f() {") = Some m ∧
    m_lastindex m = Some g ∧ g ≠ O ∧
    func_name_of m = Some (str_slice (py "function f() {") a b).
Proof.
  destruct sample_search as (p & m & Hp & Hm).
  destruct (lastindex_always_set ascii_only ascii_only p _ m Hp Hm)
    as (g & a & b & Hl & Hg & _ & _ & _ & _ & Hname).
  exists p, m, g, a, b. auto.
Defined.

(** C3 as first stated fails on a directory that exists and holds a file
    the run cannot decode: [src] exists and no violation is found, yet the
    uncaught exception ends the run with status 1, not 0. *)
Lemma script_exit_status_counterexample :
  fs_exists undecodable_fs = true ∧
  violations (script ascii_only ascii_only undecodable_fs).1 = [] ∧
  (script ascii_only ascii_only undecodable_fs).2 = Uncaught UnicodeDecodeError ∧
  exit_status (script ascii_only ascii_only undecodable_fs).2 = 1.
Proof. by vm_compute. Qed.

(** ** The further properties on sample inputs *)

#[local] Existing Instance exceeds_dec.

Example two_files_reports :
  violations (script ascii_only ascii_only two_files_fs).1 =
    [(long_path, (10, Some (py "long"), 131))].
Proof. vm_compute. reflexivity. Qed.

Example braces_no_reports :
  find_functions ascii_only ascii_only 0 braces_fs sample_path = Ok [].
Proof. vm_compute. reflexivity. Qed.

Lemma count_function_lines_past_end_witness :
  len (str_split LF sample_content) < 6 ∧
  count_function_lines sample_content 6 = Ok (-1).
Proof.
  assert (len (str_split LF sample_content) < 6) as H by (by vm_compute).
  split; [exact H|].
  exact (proj1 (count_function_lines_past_end sample_content 6 H)).
Defined.

Lemma sample_wrap_range : - len (str_split LF sample_content) < 0 ≤ 0.
Proof. by vm_compute. Qed.

Lemma count_function_lines_wraps_witness :
  - len (str_split LF sample_content) < 0 ≤ 0 ∧
  ∃ n, count_function_lines sample_content 0 = Ok n ∧ 1 ≤ n ≤ 4 - 0 + 1.
Proof.
  split; [exact sample_wrap_range|].
  destruct (count_function_lines_wraps sample_content 0 sample_wrap_range)
    as (n & Hn & Hb & _).
  exists n. split; [exact Hn | exact Hb].
Defined.

Lemma balance_nonneg_within_span_witness :
  count_function_lines sample_content 1 = Ok 3 ∧
  0 ≤ balance (lines_from sample_content 1) 1.
Proof.
  split; [reflexivity|].
  apply (balance_nonneg_within_span sample_content 1 3 1 sample_range eq_refl).
  lia.
Defined.

Lemma spans_nest_witness :
  count_function_lines sample_content 1 = Ok 3 ∧
  count_function_lines sample_content 2 = Ok 2 ∧
  2 + 2 ≤ 1 + 3.
Proof.
  split; [reflexivity|]. split; [reflexivity|].
  apply (spans_nest sample_content 1 2 3 2); try reflexivity; try lia.
  by vm_compute.
Defined.

Lemma count_function_lines_shift_witness :
  count_function_lines (py "// header" ++ LF :: sample_content)
    (len (str_split LF (py "// header")) + 1) =
  count_function_lines sample_content 1.
Proof. exact (count_function_lines_shift (py "// header") sample_content 1 sample_range). Defined.

Lemma count_function_lines_tail_witness :
  stops (lines_from sample_content 1) 2 ∧
  count_function_lines (sample_content ++ LF :: py "}") 1 =
    count_function_lines sample_content 1.
Proof.
  split; [exact sample_stops_at_2|].
  exact (count_function_lines_tail sample_content (py "}") 1 2 sample_range
           sample_stops_at_2).
Defined.

Lemma one_line_range : 1 ≤ 1 ≤ len (str_split LF one_line_content).
Proof. by vm_compute. Qed.

Lemma count_function_lines_one_witness :
  count_function_lines one_line_content 1 = Ok 1.
Proof.
  apply (count_function_lines_one one_line_content 1 one_line_content
           one_line_range eq_refl).
  right. reflexivity.
Defined.

Lemma sample_violation :
  find_functions ascii_only ascii_only 2 sample_fs sample_path =
    Ok [(1, Some (py "f"), 3)].
Proof. vm_compute. reflexivity. Qed.

Lemma find_functions_entry_bounds_witness :
  1 ≤ 1 ≤ len (str_split LF sample_content) - 2 ∧
  2 < 3 ≤ len (str_split LF sample_content) - 1 + 1 ∧
  count_function_lines sample_content 1 = Ok 3.
Proof.
  apply (find_functions_entry_bounds ascii_only ascii_only 2 sample_fs sample_path
           sample_content [(1, Some (py "f"), 3)] 1 3 (Some (py "f"))
           eq_refl sample_violation).
  by apply list_elem_of_singleton.
Defined.

Lemma find_functions_short_file_witness :
  len (str_split LF sample_content) ≤ 120 ∧
  find_functions ascii_only ascii_only 120 sample_fs sample_path = Ok [].
Proof.
  assert (len (str_split LF sample_content) ≤ 120) as H by (by vm_compute).
  split; [exact H|].
  exact (find_functions_short_file ascii_only ascii_only 120 sample_fs sample_path
           sample_content eq_refl H).
Defined.

Lemma braces_lines_no_word (line : str) :
  line ∈ str_split LF braces_content →
  Forall (fun c => cset_mem ascii_only ascii_only CWord c = false) line.
Proof.
  change (str_split LF braces_content) with [py "}"; []; py ");"].
  rewrite !elem_of_cons, elem_of_nil.
  intros [->|[->|[->|[]]]]; repeat constructor.
Qed.

Lemma braces_no_match (line : str) (p : regex) :
  line ∈ str_split LF braces_content → p ∈ patterns →
  re_search ascii_only ascii_only p line = None.
Proof.
  intros Hline Hp. apply search_from_no_word; [|by apply braces_lines_no_word].
  pose proof (patterns_need_word ascii_only ascii_only) as H.
  rewrite Forall_forall in H. by apply H.
Qed.

Lemma find_functions_no_match_witness :
  find_functions ascii_only ascii_only 0 braces_fs sample_path = Ok [].
Proof.
  exact (find_functions_no_match ascii_only ascii_only 0 braces_fs sample_path
           braces_content eq_refl braces_no_match).
Defined.

Lemma sample_no_violation :
  find_functions ascii_only ascii_only 3 sample_fs sample_path = Ok [].
Proof. vm_compute. reflexivity. Qed.

Lemma find_functions_threshold_mono_witness :
  2 ≤ 3 ∧
  [] = filter (exceeds 3) [(1, Some (py "f"), 3)] ∧
  [] `sublist_of` [(1, Some (py "f"), 3)].
Proof.
  assert (2 ≤ 3) as H by lia. split; [exact H|].
  exact (find_functions_threshold_mono ascii_only ascii_only 2 3 sample_fs sample_path
           _ _ H sample_violation sample_no_violation).
Defined.

Lemma no_word_no_candidate_witness :
  Forall (fun c => cset_mem ascii_only ascii_only CWord c = false) (py "  });") ∧
  first_match ascii_only ascii_only (py "  });") = None.
Proof.
  assert (Forall (fun c => cset_mem ascii_only ascii_only CWord c = false) (py "  });"))
    as H by repeat constructor.
  split; [exact H|].
  exact (proj1 (proj2 (no_word_no_candidate ascii_only ascii_only (py "  });") H))).
Defined.

Lemma first_pattern_in_patterns :
  ∃ p, head patterns = Some p ∧ p ∈ patterns.
Proof. eexists. split; [reflexivity|]. apply elem_of_cons. by left. Qed.

Lemma patterns_match_at_start_witness :
  ∃ p, p ∈ patterns ∧
    re_search ascii_only ascii_only p (py "x = function f") =
      match_of (py "x = function f")
        <$> head (rmatch ascii_only ascii_only p (ms_init 0 (py "x = function f"))).
Proof.
  destruct first_pattern_in_patterns as (p & _ & Hp).
  exists p. split; [exact Hp|].
  exact (proj1 (patterns_match_at_start ascii_only ascii_only p _ Hp)).
Defined.

Lemma find_functions_names_witness :
  ∃ line (a b : nat),
    str_split LF sample_content !! Z.to_nat (1 - 1) = Some line ∧
    (a < b ≤ length line)%nat ∧
    Some (py "f") = Some (str_slice line a b) ∧
    str_slice line a b ≠ [].
Proof.
  apply (find_functions_names ascii_only ascii_only 2 sample_fs sample_path
           sample_content [(1, Some (py "f"), 3)] 1 3 (Some (py "f"))
           eq_refl sample_violation).
  by apply list_elem_of_singleton.
Defined.

Lemma long_fs_readable : Forall (readable long_fs) (fs_rglob long_fs).
Proof. repeat constructor. by exists long_content. Qed.

Lemma script_reports_witness :
  fs_exists long_fs = true ∧
  violations (script ascii_only ascii_only long_fs).1 =
    fs_rglob long_fs ≫= file_reports ascii_only ascii_only MAX_LINES long_fs.
Proof.
  split; [reflexivity|].
  exact (script_reports ascii_only ascii_only long_fs eq_refl long_fs_readable).
Defined.

Lemma script_aborts_at_unreadable_witness :
  fs_rglob undecodable_fs = [] ++ sample_path :: [] ∧
  fs_read undecodable_fs sample_path = Raise UnicodeDecodeError ∧
  (script ascii_only ascii_only undecodable_fs).2 = Uncaught UnicodeDecodeError.
Proof.
  split; [reflexivity|]. split; [reflexivity|].
  exact (proj1 (script_aborts_at_unreadable ascii_only ascii_only undecodable_fs
                  [] [] sample_path UnicodeDecodeError eq_refl eq_refl
                  (Forall_nil_2 _) eq_refl)).
Defined.

Lemma two_files_perm : fs_rglob two_files_fs' ≡ₚ fs_rglob two_files_fs.
Proof. apply perm_swap. Qed.

Lemma script_status_order_witness :
  fs_rglob two_files_fs' ≡ₚ fs_rglob two_files_fs ∧
  exit_status (script ascii_only ascii_only two_files_fs').2 =
    exit_status (script ascii_only ascii_only two_files_fs).2.
Proof.
  split; [exact two_files_perm|].
  exact (script_status_order ascii_only ascii_only two_files_fs two_files_fs'
           eq_refl (fun _ => eq_refl) two_files_perm).
Defined.

Lemma sample_fs_no_violation (f : path) :
  f ∈ fs_rglob sample_fs →
  find_functions ascii_only ascii_only MAX_LINES sample_fs f = Ok [].
Proof. intros _. vm_compute. reflexivity. Qed.

Lemma main_keeps_exit_code_witness :
  fs_exists sample_fs = true ∧
  main ascii_only ascii_only sample_fs (World [] 1) =
    (World ([] ++ [PHeader MAX_LINES; PBlank; PBlank; PRefactor MAX_LINES]) 1,
     SystemExit 1).
Proof.
  split; [reflexivity|].
  apply (main_keeps_exit_code ascii_only ascii_only sample_fs [] 1);
    [discriminate | reflexivity | exact sample_fs_no_violation].
Defined.

Lemma non_word_start_no_candidate_witness :
  Forall (fun x => cset_mem ascii_only ascii_only CWord x = false) (py "  ") ∧
  first_match ascii_only ascii_only (py "  // function f() {") = None.
Proof.
  assert (Forall (fun x => cset_mem ascii_only ascii_only CWord x = false) (py "  "))
    as H by repeat constructor.
  split; [exact H|].
  exact (proj2 (non_word_start_no_candidate ascii_only ascii_only (py "  ") 47%N
                  (py "/ function f() {") H eq_refl eq_refl)).
Defined.
